(** * The snippet validators of the tutorial book

    Shallow embedding of [test_syntax.py] and [test_execution.py]: both
    scripts read one chapter, pull the fenced Python blocks out of it with
    [re.findall], and either parse every block ([test_syntax.py]) or execute
    the blocks in one shared namespace and then probe five named functions
    ([test_execution.py]).

    Text is a list of Unicode code points, as a Python [str] is.  The
    interpreter services the scripts call ([ast.parse], [exec], [eval]) are
    an interface; the scripts' own logic (the regular expression, [strip],
    [in], [split], slicing, the loops and their handlers) is written out. *)

From Stdlib Require Import String Ascii NArith ZArith List Bool Lia.
From stdpp Require Import base option list countable gmap.
From Equations Require Import Equations.
Import ListNotations.

Open Scope list_scope.

(** ** Text *)

Abbreviation text := (list N).

(** A literal of the source, as its code points. *)
Definition str (s : string) : text := map N_of_ascii (list_ascii_of_string s).

(** The double quote, written apart from the literals around it. *)
Definition dquote : text := [34%N].

(** [s.startswith(p)] *)
Fixpoint startswith (p s : text) : bool :=
  match p, s with
  | [], _ => true
  | _ :: _, [] => false
  | a :: p', b :: s' => N.eqb a b && startswith p' s'
  end.

(** [needle in hay] on strings: some suffix of [hay] starts with [needle]. *)
Fixpoint contains (needle hay : text) : bool :=
  startswith needle hay ||
  match hay with
  | [] => false
  | _ :: hay' => contains needle hay'
  end.

(** [s.split(sep)[0]]: the text before the first occurrence of [sep], the
    whole of [s] when [sep] does not occur. *)
Fixpoint split_head (sep s : text) : text :=
  if startswith sep s then []
  else match s with
       | [] => []
       | c :: s' => c :: split_head sep s'
       end.

(** The characters [str.strip()] removes: those for which [str.isspace]
    holds. *)
Definition isspace (c : N) : bool :=
  (((9 <=? c) && (c <=? 13)) || ((28 <=? c) && (c <=? 32)) ||
   (c =? 133) || (c =? 160) || (c =? 5760) ||
   ((8192 <=? c) && (c <=? 8202)) || (c =? 8232) || (c =? 8233) ||
   (c =? 8239) || (c =? 8287) || (c =? 12288))%N.

Fixpoint lstrip (s : text) : text :=
  match s with
  | [] => []
  | c :: s' => if isspace c then lstrip s' else s
  end.

Definition rstrip (s : text) : text := rev (lstrip (rev s)).

(** [s.strip()] *)
Definition strip (s : text) : text := rstrip (lstrip s).

(** Truth value of a string: [if s] holds for a non-empty one. *)
Definition truthy (s : text) : bool :=
  match s with [] => false | _ :: _ => true end.

(** ** The extraction step: [re.findall(pattern, content, re.DOTALL)] *)

(** The two literal parts of the pattern [```\{python\}(.*?)```]. *)
Definition opener : text := str "```{python}".
Definition closer : text := str "```".

(** The tail [(.*?)```] of the pattern, tried at the start of [s]: the lazy
    group takes no character if the closer is next, and otherwise one more
    character (any character: [re.DOTALL]) before trying again.  The result
    is the group and the text after the closer. *)
Fixpoint lazy_group (s : text) : option (text * text) :=
  if startswith closer s then Some ([], drop (length closer) s)
  else match s with
       | [] => None
       | c :: s' =>
           match lazy_group s' with
           | Some (g, rest) => Some (c :: g, rest)
           | None => None
           end
       end.

(** One attempt to match the whole pattern at the start of [s]. *)
Definition match_at (s : text) : option (text * text) :=
  if startswith opener s then lazy_group (drop (length opener) s) else None.

(** A value together with the equation that says where it came from, for
    the termination argument below. *)
Definition inspect {A : Type} (a : A) : {b : A | a = b} := exist _ a eq_refl.

(** [re.findall]: scan from the left; where the pattern matches, keep the
    group and go on after the match, and where it does not, move one
    character on.  Matches never overlap, and none is empty. *)
Equations? findall (s : text) : list text by wf (length s) lt :=
  findall s with inspect (match_at s) => {
    | exist _ (Some (g, rest)) _ := g :: findall rest;
    | exist _ None _ with s => {
        | [] := [];
        | _ :: s' := findall s' } }.
Proof.
  (* a match ends behind the place where it starts *)
  assert (Hlazy : forall u g' r, lazy_group u = Some (g', r) -> length r < length u).
  { induction u as [|c u IH]; intros g' r; [discriminate|].
    cbn [lazy_group]. destruct (startswith closer (c :: u)).
    - intros [= <- <-]. rewrite length_drop.
      change (length closer) with 3. cbn [length]. lia.
    - destruct (lazy_group u) as [[g'' r']|]; [|discriminate].
      intros [= <- <-]. specialize (IH _ _ eq_refl). cbn [length]. lia. }
  match goal with E : match_at _ = _ |- _ => unfold match_at in E end.
  destruct (startswith opener s); [|discriminate].
  match goal with E : lazy_group _ = _ |- _ => apply Hlazy in E; rewrite length_drop in E end.
  lia.
Qed.

(** A literal no proper suffix of which starts it again (checked one
    length at a time): its occurrences cannot overlap one another. *)
Definition unbordered (p : text) : bool :=
  forallb (fun k => negb (startswith (drop k p) (removelast p)))
          (seq 1 (length p - 1)).

(** ** Documents laid out as fences *)

Definition newline : N := 10%N.

(** [s.endswith(p)] *)
Definition endswith (p s : text) : bool := startswith (rev p) (rev s).

(** A document written as its fences: the text in front of the first
    opener, then for every fence its body (all that stands between the
    opener and the closer) and the text that follows its closer. *)
Fixpoint fenced (pairs : list (text * text)) : text :=
  match pairs with
  | [] => []
  | (body, gap) :: rest => opener ++ body ++ closer ++ gap ++ fenced rest
  end.

(** A fence in which the opener is followed by a newline, the closer stands
    alone on its line, the body has no fence marker of its own, and the text
    after the closer does not write the opener again. *)
Definition fence_pair (pair : text * text) : bool :=
  let '(body, gap) := pair in
  startswith [newline] body && endswith [newline] body &&
  (negb (truthy gap) || startswith [newline] gap) &&
  negb (contains closer body) && negb (contains opener gap).

(** A line that holds the fence marker alone. *)
Definition closer_line : text := newline :: closer ++ [newline].

(** The fence as the fence grammar words it, and no more: the opener is
    followed by a newline, the closer stands alone on its line and is the
    first such line after the opener (the body may still write the marker
    inside a line), and the text after the closer opens no further fence (it
    may still write the opener inside a line). *)
Definition stated_fence_pair (pair : text * text) : bool :=
  let '(body, gap) := pair in
  startswith [newline] body && endswith [newline] body &&
  (negb (truthy gap) || startswith [newline] gap) &&
  negb (contains closer_line body) && negb (contains (opener ++ [newline]) gap).

(** ** The interpreter the scripts call *)

(** What comes out of a piece of Python that does not return, as far as
    the handlers of the scripts can tell.  They catch instances of
    [Exception] and put [str(e)] into an f-string, and [str(e)] is a call
    of its own ([__str__] can be overridden): it returns a text, or does
    not return either.

    - [Error e]: an instance of [Exception] with [str(e) = e];
    - [Error_unprintable r]: an instance of [Exception] on which [str]
      does not return but ends with [r];
    - [Exit status]: an exception outside [Exception] ([SystemExit],
      [KeyboardInterrupt]), which no handler of the scripts catches;
      [status] is the exit status the process ends with when it reaches
      the top level;
    - [Hang]: nothing is raised and nothing returns. *)
Inductive raised : Type :=
| Error (e : text)
| Error_unprintable (r : raised)
| Exit (status : Z)
| Hang.

(** How a call into the interpreter ends: it returns, it raises an instance
    of [Exception], it raises outside [Exception], or it never returns.
    Where the script formats what it got (the result of [eval] in the OK
    line, the exception in the ERROR line) two cases are told apart:
    [Returns a] and [Raises e] when the string form can be taken ([e] is
    [str] of the exception), [Returns_unprintable a r] and
    [Raises_unprintable r] when [str] of the result or of the exception
    ends with [r] instead. *)
Inductive completion (A : Type) : Type :=
| Returns (a : A)
| Returns_unprintable (a : A) (r : raised)
| Raises (e : text)
| Raises_unprintable (r : raised)
| Escapes (status : Z)
| Hangs.
Arguments Returns {A} a.
Arguments Returns_unprintable {A} a r.
Arguments Raises {A} e.
Arguments Raises_unprintable {A} r.
Arguments Escapes {A} status.
Arguments Hangs {A}.

(** How [ast.parse(src)] ends: with a tree, which the script drops; with
    [SyntaxError] (or one of its subclasses), the one exception the loop of
    [test_syntax.py] handles; or with another instance of [Exception]
    ([MemoryError] when the parser's stack overflows, [RecursionError],
    [ValueError]), which only the outer handler catches.  The texts are
    [str] of the exception. *)
Inductive parsing : Type :=
| Parsed
| Syntax_error (e : text)
| Parse_error (e : text).

(** [exec(code, env)] and [eval(expr, env)] work on the dictionary they are
    given and leave it as the code left it, however the call ends; a
    [__str__] that the script calls on the outcome runs before anything
    else reads the dictionary, and what it did to it is in the dictionary
    returned. *)
Class Interpreter := {
  value : Type;
  ast_parse : text -> parsing;
  py_exec : text -> gmap text value -> gmap text value * completion unit;
  py_eval : text -> gmap text value -> gmap text value * completion value
}.

(** What stops a run from inside: an exception no handler catches, a call
    that does not return, or the outer handler of the function, which
    reports what it caught and returns [False]. *)
Inductive abort : Type :=
| Uncaught (status : Z)
| Diverged
| Handled.

(** How a script's function ends. *)
Inductive ending : Type :=
| Returned (success : bool)
| Propagated (status : Z)
| Never.

Definition ending_of (a : abort) : ending :=
  match a with
  | Uncaught status => Propagated status
  | Diverged => Never
  | Handled => Returned false
  end.


(** The chapter file as [open] and [read] find it. *)
Inductive source : Type :=
| Readable (content : text)
| Unreadable (e : text).

Section Validators.
Context {I : Interpreter}.

(** One constructor for every [print] of the two scripts. *)
Inductive line : Type :=
| Testing_syntax
| Testing_execution
| Found (n : nat)
| Block_ok (i : nat)
| Block_syntax_error (i : nat) (e : text)
| Block_preview (preview : text)
| All_passed
| Error_reading (e : text)
| Block_skipped (i : nat)
| Block_executed (i : nat)
| Block_error (i : nat) (e : text)
| Testing_functions
| Probe_ok (func_name : text) (result : value)
| Probe_error (func_name : text) (e : text)
| Probe_not_found (func_name : text)
| Completed
| Error_line (e : text).

(** What a run does that can be seen from outside: the lines it prints and
    the calls it makes into the interpreter, in order. *)
Inductive event : Type :=
| Print (l : line)
| Parse (src : text)
| Exec (code : text)
| Eval (expr : text).

(** *** [test_syntax.py], [test_multiprocessing_syntax] *)

(** [ast.parse(src)] raises nothing. *)
Definition parses (src : text) : bool :=
  match ast_parse src with
  | Parsed => true
  | Syntax_error _ | Parse_error _ => false
  end.

(** The loop over [enumerate(blocks, 1)] (lines 24 to 35): a blank block
    is passed over, a block that parses gets its OK line, and the first one
    that does not ends the function with [False]: through the handler of
    the loop when the parser raised [SyntaxError] (lines 29 to 32), through
    the outer handler when it raised another instance of [Exception]
    (lines 37 to 39). *)
Fixpoint check_blocks (i : nat) (blocks : list text) : list event * bool :=
  match blocks with
  | [] => ([Print All_passed], true)
  | block :: rest =>
      if truthy (strip block) then
        match ast_parse (strip block) with
        | Parsed =>
            let '(t, ok) := check_blocks (S i) rest in
            (Parse (strip block) :: Print (Block_ok i) :: t, ok)
        | Syntax_error e =>
            ([Parse (strip block);
              Print (Block_syntax_error i e);
              Print (Block_preview (take 100 (strip block)))], false)
        | Parse_error e =>
            ([Parse (strip block); Print (Error_reading e)], false)
        end
      else check_blocks (S i) rest
  end.

Definition test_multiprocessing_syntax (file : source) : list event * bool :=
  match file with
  | Unreadable e => ([Print Testing_syntax; Print (Error_reading e)], false)
  | Readable content =>
      let blocks := findall content in
      let '(t, ok) := check_blocks 1 blocks in
      (Print Testing_syntax :: Print (Found (length blocks)) :: t, ok)
  end.

(** *** [test_execution.py], [extract_and_test_multiprocessing] *)

Definition test_functions : list (text * text) :=
  [ (str "square_number", str "square_number(5)");
    (str "word_count_mapper",
     str "word_count_mapper(" ++ dquote ++ str "hello world hello" ++ dquote ++ str ")");
    (str "word_count_reducer",
     str "word_count_reducer({" ++ dquote ++ str "hello" ++ dquote ++ str ": 2}, {"
       ++ dquote ++ str "world" ++ dquote ++ str ": 1})");
    (str "square_mapper", str "square_mapper(5)");
    (str "sum_reducer", str "sum_reducer(10, 20)") ].

Definition skip_patterns : list text :=
  [ str "pool.map(";
    str "ProcessPoolExecutor";
    str "executor.map";
    str "mp.Pool(";
    str "multiprocessing.Pool(" ].

(** [any(skip in block_code for skip in skip_patterns)] *)
Definition excluded (block_code : text) : bool :=
  existsb (fun skip => contains skip block_code) skip_patterns.

Definition main_guard : text :=
  str "if __name__ == " ++ dquote ++ str "__main__" ++ dquote.

(** The text handed to [exec] for a block that is not skipped (lines 55 to
    59). *)
Definition executable (block_code : text) : text :=
  if contains main_guard block_code
  then strip (split_head main_guard block_code)
  else block_code.

(** The outer handler (lines 84 to 86), entered with what was raised
    inside the outer [try] and outside the inner ones.  An instance of
    [Exception] is caught and reported, and the function returns [False];
    when [str] of it does not return, what [str] ends with leaves the
    function from inside the handler, and an instance of [Exception] that
    reaches the top level ends the process with status 1.  Anything else
    passes the handler by. *)
Definition outer_handler (r : raised) : list event * option abort :=
  match r with
  | Error e => ([Print (Error_line e)], Some Handled)
  | Error_unprintable (Error _) => ([], Some (Uncaught 1))
  | Error_unprintable (Error_unprintable _) => ([], Some (Uncaught 1))
  | Error_unprintable (Exit status) => ([], Some (Uncaught status))
  | Error_unprintable Hang => ([], Some Diverged)
  | Exit status => ([], Some (Uncaught status))
  | Hang => ([], Some Diverged)
  end.

(** The handler of the loop over the blocks (lines 64 to 67), entered with
    what was raised inside its [try].  The ERROR line is printed from
    [str(e)]; when [str(e)] does not return, what it ends with is raised
    inside this handler, under the outer [try]. *)
Definition block_handler (i : nat) (r : raised) : list event * option abort :=
  match r with
  | Error e => ([Print (Block_error i e)], None)
  | Error_unprintable r' => outer_handler r'
  | Exit _ | Hang => outer_handler r
  end.

(** The handler of the loop over the probes (lines 76 and 77), the same
    with its own line. *)
Definition probe_handler (func_name : text) (r : raised)
  : list event * option abort :=
  match r with
  | Error e => ([Print (Probe_error func_name e)], None)
  | Error_unprintable r' => outer_handler r'
  | Exit _ | Hang => outer_handler r
  end.

(** The [try: exec(block_code, test_env)] of the loop with its handler
    (lines 61 to 67).  What [exec] returns is not looked at. *)
Definition execute (i : nat) (block_code : text) (env : gmap text value)
  : list event * gmap text value * option abort :=
  match py_exec block_code env with
  | (env', Returns _) => ([Exec block_code; Print (Block_executed i)], env', None)
  | (env', Returns_unprintable _ _) =>
      ([Exec block_code; Print (Block_executed i)], env', None)
  | (env', Raises e) => ([Exec block_code; Print (Block_error i e)], env', None)
  | (env', Raises_unprintable r) =>
      let '(t, a) := block_handler i (Error_unprintable r) in
      (Exec block_code :: t, env', a)
  | (env', Escapes status) => ([Exec block_code], env', Some (Uncaught status))
  | (env', Hangs) => ([Exec block_code], env', Some Diverged)
  end.

(** The body of the loop over [enumerate(blocks, 1)] (lines 37 to 66). *)
Definition run_block (i : nat) (block : text) (env : gmap text value)
  : list event * gmap text value * option abort :=
  let block_code := strip block in
  if negb (truthy block_code) then ([], env, None)
  else if excluded block_code then ([Print (Block_skipped i)], env, None)
  else execute i (executable block_code) env.

Fixpoint run_blocks (i : nat) (blocks : list text) (env : gmap text value)
  : list event * gmap text value * option abort :=
  match blocks with
  | [] => ([], env, None)
  | block :: rest =>
      match run_block i block env with
      | (t, env', None) =>
          let '(t', env'', a) := run_blocks (S i) rest env' in
          (t ++ t', env'', a)
      | stopped => stopped
      end
  end.

(** The body of the loop over [test_functions.items()] (lines 70 to 79);
    the dictionary is walked in the order it was written.  The OK line is
    formatted inside the [try] (line 75): when [str] of the result does not
    return, what it ends with goes to the handler of line 76, as what
    [eval] raises does. *)
Definition run_probe (func_name test_call : text) (env : gmap text value)
  : list event * gmap text value * option abort :=
  match env !! func_name with
  | Some _ =>
      match py_eval test_call env with
      | (env', Returns result) =>
          ([Eval test_call; Print (Probe_ok func_name result)], env', None)
      | (env', Returns_unprintable _ r) =>
          let '(t, a) := probe_handler func_name r in
          (Eval test_call :: t, env', a)
      | (env', Raises e) =>
          ([Eval test_call; Print (Probe_error func_name e)], env', None)
      | (env', Raises_unprintable r) =>
          let '(t, a) := probe_handler func_name (Error_unprintable r) in
          (Eval test_call :: t, env', a)
      | (env', Escapes status) => ([Eval test_call], env', Some (Uncaught status))
      | (env', Hangs) => ([Eval test_call], env', Some Diverged)
      end
  | None => ([Print (Probe_not_found func_name)], env, None)
  end.

Fixpoint run_probes (probes : list (text * text)) (env : gmap text value)
  : list event * gmap text value * option abort :=
  match probes with
  | [] => ([], env, None)
  | (func_name, test_call) :: rest =>
      match run_probe func_name test_call env with
      | (t, env', None) =>
          let '(t', env'', a) := run_probes rest env' in
          (t ++ t', env'', a)
      | stopped => stopped
      end
  end.

Definition extract_and_test_multiprocessing (file : source) : list event * ending :=
  match file with
  | Unreadable e => ([Print Testing_execution; Print (Error_line e)], Returned false)
  | Readable content =>
      let blocks := findall content in
      let head := [Print Testing_execution; Print (Found (length blocks))] in
      match run_blocks 1 blocks ∅ with
      | (t, test_env, None) =>
          match run_probes test_functions test_env with
          | (t', _, None) =>
              (head ++ t ++ Print Testing_functions :: t' ++ [Print Completed],
               Returned true)
          | (t', _, Some a) =>
              (head ++ t ++ Print Testing_functions :: t', ending_of a)
          end
      | (t, _, Some a) => (head ++ t, ending_of a)
      end
  end.



(** The calls and the lines a trace records. *)
Fixpoint parsed (t : list event) : list text :=
  match t with
  | [] => []
  | Parse src :: t' => src :: parsed t'
  | _ :: t' => parsed t'
  end.

Fixpoint executed (t : list event) : list text :=
  match t with
  | [] => []
  | Exec code :: t' => code :: executed t'
  | _ :: t' => executed t'
  end.

Fixpoint printed (t : list event) : list line :=
  match t with
  | [] => []
  | Print l :: t' => l :: printed t'
  | _ :: t' => printed t'
  end.

End Validators.

(** ** A sample interpreter

    A table of what CPython does on the few program texts the examples
    below are written with, on the environments those texts produce.  Any
    other text is answered as [f = = int] is, with a syntax error. *)
Module Sample.

Inductive obj : Type :=
| Int (z : Z)
| Callable (name : text)
| Namespace (name : text)
| Instance (class : text).

(** [exec] and [eval] put the builtins into a dictionary that lacks them. *)
Definition with_builtins (env : gmap text obj) : gmap text obj :=
  match env !! str "__builtins__" with
  | Some _ => env
  | None => <[str "__builtins__" := Namespace (str "builtins")]> env
  end.

Definition define_f : text := str "f = int".
Definition define_f_commented : text := str "f = int  # mp.Pool(".
Definition call_f : text := str "f()".
Definition raise_exit : text := str "raise SystemExit(1)".
Definition import_exit : text := str "from sys import exit as square_number".
Definition define_global : text := str "def square_number(x):
    global sum_reducer
    sum_reducer = max
    return x * x".
Definition broken : text := str "f = = int".

(** An exception class whose instances have no string form, raised by the
    block itself, and returned or raised by the functions of a block. *)
Definition raise_mute : text := str "class Mute(Exception):
    def __str__(self):
        raise ValueError('no text')
raise Mute()".
Definition define_mute : text := str "class Mute(Exception):
    def __str__(self):
        raise ValueError('no text')
def square_number(x):
    return Mute()
def sum_reducer(a, b):
    raise Mute()".

(** An expression nested deeper than the parser's stack, ten thousand
    minus signs in front of a digit: the parser gives up with
    [MemoryError] (the message is the one of CPython 3.12). *)
Definition too_deep : text := replicate (N.to_nat 10000) 45%N ++ str "4".
Definition too_complex : text :=
  str "Parser stack overflowed - Python source too complex to parse".

Definition invalid_syntax (file : string) : text :=
  str "invalid syntax (" ++ str file ++ str ", line 1)".
Definition not_defined (name : text) : text :=
  str "name '" ++ name ++ str "' is not defined".

Definition parse (src : text) : parsing :=
  if decide (src = []) then Parsed
  else if decide (src = define_f) then Parsed
  else if decide (src = define_f_commented) then Parsed
  else if decide (src = call_f) then Parsed
  else if decide (src = raise_exit) then Parsed
  else if decide (src = import_exit) then Parsed
  else if decide (src = define_global) then Parsed
  else if decide (src = raise_mute) then Parsed
  else if decide (src = define_mute) then Parsed
  else if decide (src = too_deep) then Parse_error too_complex
  else Syntax_error (invalid_syntax "<unknown>").

Definition exec (code : text) (env : gmap text obj)
  : gmap text obj * completion unit :=
  let env := with_builtins env in
  if decide (code = []) then (env, Returns tt)
  else if decide (code = define_f) then
    (<[str "f" := Callable (str "int")]> env, Returns tt)
  else if decide (code = define_f_commented) then
    (<[str "f" := Callable (str "int")]> env, Returns tt)
  else if decide (code = call_f) then
    match env !! str "f" with
    | Some (Callable _) => (env, Returns tt)
    | Some _ => (env, Raises (str "object is not callable"))
    | None => (env, Raises (not_defined (str "f")))
    end
  else if decide (code = raise_exit) then (env, Escapes 1)
  else if decide (code = import_exit) then
    (<[str "square_number" := Callable (str "sys.exit")]> env, Returns tt)
  else if decide (code = define_global) then
    (<[str "square_number" := Callable (str "square_number")]> env, Returns tt)
  else if decide (code = raise_mute) then
    (<[str "Mute" := Callable (str "Mute")]> env,
     Raises_unprintable (Error (str "no text")))
  else if decide (code = define_mute) then
    (<[str "sum_reducer" := Callable (str "raises Mute")]>
       (<[str "square_number" := Callable (str "returns Mute")]>
          (<[str "Mute" := Callable (str "Mute")]> env)), Returns tt)
  else (env, Raises (invalid_syntax "<string>")).

Definition eval (expr : text) (env : gmap text obj)
  : gmap text obj * completion obj :=
  let env := with_builtins env in
  if decide (expr = str "square_number(5)") then
    match env !! str "square_number" with
    | Some (Callable name) =>
        if decide (name = str "sys.exit") then (env, Escapes 5)
        else if decide (name = str "square_number") then
          (<[str "sum_reducer" := Callable (str "max")]> env, Returns (Int 25))
        else if decide (name = str "returns Mute") then
          (env, Returns_unprintable (Instance (str "Mute")) (Error (str "no text")))
        else (env, Raises (str "unsupported"))
    | Some _ => (env, Raises (str "object is not callable"))
    | None => (env, Raises (not_defined (str "square_number")))
    end
  else if decide (expr = str "sum_reducer(10, 20)") then
    match env !! str "sum_reducer" with
    | Some (Callable name) =>
        if decide (name = str "max") then (env, Returns (Int 20))
        else if decide (name = str "raises Mute") then
          (env, Raises_unprintable (Error (str "no text")))
        else (env, Raises (str "unsupported"))
    | Some _ => (env, Raises (str "object is not callable"))
    | None => (env, Raises (not_defined (str "sum_reducer")))
    end
  else (env, Raises (invalid_syntax "<string>")).

Definition python : Interpreter :=
  {| value := obj; ast_parse := parse; py_exec := exec; py_eval := eval |}.

(** A chapter whose only block is that expression. *)
Definition deep_chapter : text := str "```{python}
" ++ too_deep ++ str "
```
".


(** A chapter of five blocks: the second is blank, the third and the fifth
    do not parse. *)
Definition chapter : text := str "
```{python}
f = int
```
```{python}

```
```{python}
f = = int
```
```{python}
f()
```
```{python}
f = = int
```
".

End Sample.

(** ** Reading a trace *)

(** The block numbers on the SKIPPED, EXECUTED and ERROR lines of a trace,
    in the order they were printed. *)
Fixpoint block_indices {I : Interpreter} (t : list event) : list nat :=
  match t with
  | [] => []
  | Print (Block_skipped i) :: t' => i :: block_indices t'
  | Print (Block_executed i) :: t' => i :: block_indices t'
  | Print (Block_error i _) :: t' => i :: block_indices t'
  | _ :: t' => block_indices t'
  end.

(** The function names on the OK, ERROR and NOT FOUND lines of a trace. *)
Fixpoint probe_names {I : Interpreter} (t : list event) : list text :=
  match t with
  | [] => []
  | Print (Probe_ok func_name _) :: t' => func_name :: probe_names t'
  | Print (Probe_error func_name _) :: t' => func_name :: probe_names t'
  | Print (Probe_not_found func_name) :: t' => func_name :: probe_names t'
  | _ :: t' => probe_names t'
  end.

(** The expressions handed to [eval]. *)
Fixpoint evaluated {I : Interpreter} (t : list event) : list text :=
  match t with
  | [] => []
  | Eval expr :: t' => expr :: evaluated t'
  | _ :: t' => evaluated t'
  end.

(** The numbers [enumerate(blocks, i)] gives to the blocks that are not
    blank. *)
Fixpoint nonblank_positions (i : nat) (blocks : list text) : list nat :=
  match blocks with
  | [] => []
  | block :: rest =>
      if truthy (strip block) then i :: nonblank_positions (S i) rest
      else nonblank_positions (S i) rest
  end.

(** A literal that neither starts nor ends with a character [strip]
    removes. *)
Definition edges_solid (p : text) : bool :=
  match p, rev p with
  | a :: _, b :: _ => negb (isspace a) && negb (isspace b)
  | _, _ => false
  end.

(** ** The example modules of [shared/code] *)

(** *** [control_flow_examples.py] *)
Module ControlFlow.

(** What [fizzbuzz_demo] prints for one number (lines 71 to 78). *)
Inductive fizz_line : Type :=
| FizzBuzz
| Fizz
| Buzz
| Number (i : Z).

Definition fizzbuzz_line (i : Z) : fizz_line :=
  if (i mod 15 =? 0)%Z then FizzBuzz
  else if (i mod 3 =? 0)%Z then Fizz
  else if (i mod 5 =? 0)%Z then Buzz
  else Number i.

(** The lines after the heading: [for i in range(1, 21)]. *)
Definition fizzbuzz_demo : list fizz_line :=
  map (fun i => fizzbuzz_line (Z.of_nat i)) (seq 1 20).

(** The loop of [number_classifier] (lines 86 to 96) over a list
    [numbers]: the three lists it appends to. *)
Definition classify_step (lists : list Z * list Z * list Z) (num : Z)
  : list Z * list Z * list Z :=
  let '(positive, negative, zeros) := lists in
  if (num >? 0)%Z then (positive ++ [num], negative, zeros)
  else if (num <? 0)%Z then (positive, negative ++ [num], zeros)
  else (positive, negative, zeros ++ [num]).

Definition classify (numbers : list Z) : list Z * list Z * list Z :=
  fold_left classify_step numbers ([], [], []).

(** [number_classifier] runs the loop on its list and prints the four
    lists. *)
Definition number_classifier : list Z * (list Z * list Z * list Z) :=
  let numbers := [5; -3; 0; 12; -7; 0; 8; -1]%Z in
  (numbers, classify numbers).

(** [is_prime] of [prime_checker] (lines 108 to 114).  The bound of the
    loop, [int(n**0.5)], is computed in floating point; it is taken from
    [root], and the theorems say what they need of it. *)
Definition is_prime (root : nat -> nat) (n : nat) : bool :=
  if n <? 2 then false
  else forallb (fun i => negb (n mod i =? 0)) (seq 2 (root n + 1 - 2)).

(** The list [prime_checker] prints: [range(2, limit + 1)] filtered. *)
Definition primes_up_to (root : nat -> nat) (limit : nat) : list nat :=
  List.filter (is_prime root) (seq 2 (limit + 1 - 2)).

(** [validate_password] of [password_validator] (lines 157 to 190).  The
    character classes [str.isupper], [str.islower] and [str.isdigit] are
    Unicode tables of the interpreter; they are taken as they come. *)
Section Password.
Variables isupper islower isdigit : N -> bool.

Definition special_chars : text := str "!@#$%^&*".

Record flags : Type := {
  has_upper : bool;
  has_lower : bool;
  has_digit : bool;
  has_special : bool
}.

(** The body of [for char in password]. *)
Definition scan_char (f : flags) (char : N) : flags :=
  if isupper char then
    {| has_upper := true; has_lower := has_lower f;
       has_digit := has_digit f; has_special := has_special f |}
  else if islower char then
    {| has_upper := has_upper f; has_lower := true;
       has_digit := has_digit f; has_special := has_special f |}
  else if isdigit char then
    {| has_upper := has_upper f; has_lower := has_lower f;
       has_digit := true; has_special := has_special f |}
  else if contains [char] special_chars then
    {| has_upper := has_upper f; has_lower := has_lower f;
       has_digit := has_digit f; has_special := true |}
  else f.

Definition scan (password : text) : flags :=
  fold_left scan_char password
    {| has_upper := false; has_lower := false;
       has_digit := false; has_special := false |}.

Definition requirements (f : flags) : list text :=
  (if has_upper f then [] else [str "uppercase letter"]) ++
  (if has_lower f then [] else [str "lowercase letter"]) ++
  (if has_digit f then [] else [str "digit"]) ++
  (if has_special f then [] else [str "special character"]).

(** [sep.join(parts)] *)
Fixpoint join (sep : text) (parts : list text) : text :=
  match parts with
  | [] => []
  | [part] => part
  | part :: rest => part ++ sep ++ join sep rest
  end.

Definition validate_password (password : text) : bool * text :=
  if length password <? 8 then
    (false, str "Password must be at least 8 characters")
  else
    match requirements (scan password) with
    | [] => (true, str "Strong password!")
    | missing => (false, str "Missing: " ++ join (str ", ") missing)
    end.

End Password.

End ControlFlow.

(** *** [oop_examples.py]

    Amounts and coordinates are integers, as in every call the module makes
    itself; what the methods print is kept as a line of its own type. *)

(** The integers [float] can be made of, which the format [.2f] and the
    product of an [int] and a [float] need: those that round (to nearest,
    ties to even) below [2 ** 1024].  On the others the conversion raises
    [OverflowError]. *)
Definition fits_float (n : Z) : bool := (Z.abs n <? 2 ^ 1024 - 2 ^ 970)%Z.

Module Bank.

(** One entry of [transaction_history]: the dictionary [_add_transaction]
    appends, with its keys [type], [amount], [timestamp] and [balance]. *)
Record transaction : Type := {
  transaction_type : text;
  amount : Z;
  timestamp : Z;
  recorded_balance : Z
}.

Record account : Type := {
  account_holder : text;
  balance : Z;
  transaction_history : list transaction;
  account_number : N
}.

(** What a call prints; [Overflow_error] when it prints nothing, the
    f-string of its line having raised [OverflowError]. *)
Inductive line : Type :=
| Deposited (amount balance : Z)
| Deposit_rejected
| Withdrew (amount balance : Z)
| Withdrawal_rejected
| Overflow_error.

(** [__init__]; [drawn] is what [random.randint(10000, 99999)] returned,
    the account number being [ACC] followed by it. *)
Definition init (account_holder : text) (initial_balance : Z) (drawn : N) : account :=
  {| account_holder := account_holder;
     balance := initial_balance;
     transaction_history := [];
     account_number := drawn |}.

(** [_add_transaction]; [now] is what [datetime.now()] returned. *)
Definition add_transaction (a : account) (transaction_type : text)
    (amount now : Z) : account :=
  {| account_holder := account_holder a;
     balance := balance a;
     transaction_history :=
       transaction_history a ++
       [{| transaction_type := transaction_type; amount := amount;
           timestamp := now; recorded_balance := balance a |}];
     account_number := account_number a |}.

Definition set_balance (a : account) (b : Z) : account :=
  {| account_holder := account_holder a;
     balance := b;
     transaction_history := transaction_history a;
     account_number := account_number a |}.

(** [deposit] and [withdraw] change the balance and the history first and
    format their line last ([amount] and the new balance with [.2f]): when
    that raises, the account stays changed. *)
Definition deposit (a : account) (amount now : Z) : account * line :=
  if (amount >? 0)%Z then
    let a' := add_transaction (set_balance a (balance a + amount)) (str "Deposit") amount now in
    (a', if fits_float amount && fits_float (balance a')
         then Deposited amount (balance a') else Overflow_error)
  else (a, Deposit_rejected).

Definition withdraw (a : account) (amount now : Z) : account * line :=
  if (amount >? 0)%Z && (amount <=? balance a)%Z then
    let a' := add_transaction (set_balance a (balance a - amount)) (str "Withdrawal") amount now in
    (a', if fits_float amount && fits_float (balance a')
         then Withdrew amount (balance a') else Overflow_error)
  else (a, Withdrawal_rejected).

(** The transactions [get_statement] lists: [transaction_history[-5:]]. *)
Definition statement_transactions (a : account) : list transaction :=
  drop (length (transaction_history a) - 5) (transaction_history a).

(** A client's calls, one after the other; [perform] gives the account as
    a call leaves it, whether it printed its line or raised on it. *)
Inductive call : Type :=
| Deposit (amount now : Z)
| Withdraw (amount now : Z).

Definition perform (a : account) (c : call) : account :=
  match c with
  | Deposit amount now => fst (deposit a amount now)
  | Withdraw amount now => fst (withdraw a amount now)
  end.

Definition perform_all (a : account) (calls : list call) : account :=
  fold_left perform calls a.

(** What a transaction did to the balance, and what a history did. *)
Definition effect (t : transaction) : Z :=
  if decide (transaction_type t = str "Deposit") then amount t else (- amount t)%Z.

Definition history_total (h : list transaction) : Z :=
  fold_right Z.add 0%Z (map effect h).

End Bank.

Module Vector2D.

Record vector : Type := { x : Z; y : Z }.

(** What the other operand of an operator can be: a vector, an [int], a
    [float], or an object of another type. *)
Inductive operand : Type :=
| Vec (v : vector)
| Num (n : Z)
| Flt
| Other.

(** A vector, or [NotImplemented]. *)
Definition add (self : vector) (other : operand) : option vector :=
  match other with
  | Vec o => Some {| x := x self + x o; y := y self + y o |}%Z
  | _ => None
  end.

(** What [__mul__] comes to: a vector of integers for an [int]; for a
    [float] a vector of floats, which is not followed further, unless the
    conversion of a coordinate raises [OverflowError]; [NotImplemented]
    for anything else. *)
Inductive product : Type :=
| Scaled (v : vector)
| Scaled_float
| Overflow_error
| Not_implemented.

Definition mul (self : vector) (scalar : operand) : product :=
  match scalar with
  | Num n => Scaled {| x := x self * n; y := y self * n |}%Z
  | Flt =>
      if fits_float (x self) && fits_float (y self)
      then Scaled_float else Overflow_error
  | Vec _ | Other => Not_implemented
  end.

Definition eq (self : vector) (other : operand) : bool :=
  match other with
  | Vec o => (x self =? x o)%Z && (y self =? y o)%Z
  | _ => false
  end.

End Vector2D.

(** ** The text operations on small inputs *)

(** The ways the string form of an exception can fail to come, as deep as
    the handlers of [test_execution.py] look. *)
Ltac raised_cases r := destruct r as [?|[?|[?|?|?|]|?|]|?|].

Example strip_example :
  strip (str "
  x = 1
	") = str "x = 1".
Proof. reflexivity. Qed.

Example contains_example :
  contains (str "mp.Pool(") (str "with mp.Pool(4) as pool:") = true /\
  contains (str "mp.Pool(") (str "import multiprocessing as mp") = false.
Proof. split; reflexivity. Qed.

Example split_head_example :
  split_head (str "--") (str "a--b--c") = str "a" /\
  split_head (str "--") (str "abc") = str "abc".
Proof. split; reflexivity. Qed.

Example findall_example :
  findall (str "a```{python}
x = 1

y = 2
```b```{python}```c```{python}") = [str "
x = 1

y = 2
"; []].
Proof. vm_compute. reflexivity. Qed.

(** The defining equation of [findall], without the bookkeeping of the
    termination argument. *)
Lemma findall_eq s :
  findall s =
  match match_at s with
  | Some (g, rest) => g :: findall rest
  | None => match s with [] => [] | _ :: s' => findall s' end
  end.
Proof.
  funelim (findall s);
    try match goal with E : match_at _ = _ |- _ => rewrite E end;
    reflexivity.
Qed.

(** ** Occurrences of a literal in a text *)

Lemma startswith_length p s :
  startswith p s = true -> length p <= length s.
Proof.
  revert s. induction p as [|a p IHp]; intros [|b l]; cbn;
    try lia; try discriminate.
  intros H. apply andb_prop in H as [_ H]. apply IHp in H. lia.
Qed.

Lemma startswith_app p r : startswith p (p ++ r) = true.
Proof.
  induction p as [|a p IH]; cbn; [reflexivity|].
  rewrite N.eqb_refl. exact IH.
Qed.

Lemma startswith_app_l p x y :
  length p <= length x -> startswith p (x ++ y) = startswith p x.
Proof.
  revert x. induction p as [|a p IH]; intros [|b x]; cbn; intros H;
    try reflexivity; try lia.
  rewrite IH by lia. reflexivity.
Qed.

(** A text that starts with [p] after a shorter [u] splits [p] in two: [u],
    and a rest the text goes on with. *)
Lemma startswith_across p u q :
  startswith p (u ++ q) = true ->
  startswith p u = true \/
  (length u < length p /\ startswith (drop (length u) p) q = true).
Proof.
  revert u. induction p as [|a p IH]; intros u H.
  - left. reflexivity.
  - destruct u as [|b u].
    + right. cbn [length drop]. split; [lia | exact H].
    + cbn in H. apply andb_prop in H as [Hab H].
      destruct (IH _ H) as [Hu | [Hl Hq]].
      * left. cbn. rewrite Hab, Hu. reflexivity.
      * right. cbn [length drop]. split; [lia | exact Hq].
Qed.

Lemma contains_cons p c s :
  contains p (c :: s) = false ->
  startswith p (c :: s) = false /\ contains p s = false.
Proof. cbn [contains]. intros H. apply orb_false_elim in H. exact H. Qed.

Lemma contains_short p s : length s < length p -> contains p s = false.
Proof.
  induction s as [|c s IH]; intros H.
  - destruct p; [cbn in H; lia | reflexivity].
  - cbn [contains]. rewrite IH by (cbn in H; lia).
    destruct (startswith p (c :: s)) eqn:E; [|reflexivity].
    apply startswith_length in E. lia.
Qed.

Lemma contains_app_r p s t : contains p t = true -> contains p (s ++ t) = true.
Proof.
  intros H. induction s as [|c s IH]; [exact H|].
  cbn [app contains]. rewrite IH. apply orb_true_r.
Qed.

Lemma length_removelast_lt (p : text) : p <> [] -> length (removelast p) < length p.
Proof.
  intros H. rewrite (app_removelast_last 0%N H) at 2.
  rewrite length_app. cbn. lia.
Qed.

(** When [sep] does not occur in [s] followed by all of [sep] but its last
    character, the first occurrence of [sep] in [s ++ sep ++ r] is the one
    written there.  One step of that, for the scanning functions below. *)
Lemma early_step sep c s r :
  sep <> [] ->
  contains sep ((c :: s) ++ removelast sep) = false ->
  startswith sep ((c :: s) ++ sep ++ r) = false /\
  contains sep (s ++ removelast sep) = false.
Proof.
  intros Hne H. cbn [app] in H. apply contains_cons in H as [H1 H2].
  split; [|exact H2].
  rewrite (app_removelast_last 0%N Hne) at 2.
  rewrite <- app_assoc. change (c :: s ++ removelast sep) with ((c :: s) ++ removelast sep) in H1.
  rewrite app_assoc. rewrite startswith_app_l; [exact H1|].
  pose proof (length_removelast_lt sep Hne) as Hl.
  rewrite (app_removelast_last 0%N Hne) at 1.
  rewrite !length_app. cbn. lia.
Qed.

Lemma split_head_eq sep s :
  split_head sep s =
  if startswith sep s then []
  else match s with [] => [] | c :: s' => c :: split_head sep s' end.
Proof. destruct s; reflexivity. Qed.


Lemma split_head_absent sep s : contains sep s = false -> split_head sep s = s.
Proof.
  induction s as [|c s IH]; intros H.
  - cbn. destruct (startswith sep []); reflexivity.
  - apply contains_cons in H as [H1 H2].
    rewrite split_head_eq, H1, (IH H2). reflexivity.
Qed.

Lemma unbordered_first p s :
  p <> [] -> unbordered p = true ->
  contains p s = false -> contains p (s ++ removelast p) = false.
Proof.
  intros Hne Hu. induction s as [|c s IH]; intros H.
  - apply contains_short, length_removelast_lt, Hne.
  - apply contains_cons in H as [H1 H2].
    cbn [app contains]. rewrite (IH H2), orb_false_r.
    destruct (startswith p (c :: s ++ removelast p)) eqn:E; [|reflexivity].
    change (c :: s ++ removelast p) with ((c :: s) ++ removelast p) in E.
    apply startswith_across in E as [E | [El Eq]]; [congruence|].
    unfold unbordered in Hu. rewrite forallb_forall in Hu.
    specialize (Hu (length (c :: s))).
    rewrite Eq in Hu. cbn [negb] in Hu. symmetry. apply Hu.
    apply in_seq. cbn [length] in *. lia.
Qed.

(** ** The extraction step *)

Lemma opener_eq : opener = [96; 96; 96; 123; 112; 121; 116; 104; 111; 110; 125]%N.
Proof. reflexivity. Qed.

Lemma closer_eq : closer = [96; 96; 96]%N.
Proof. reflexivity. Qed.

Lemma lazy_group_eq s :
  lazy_group s =
  if startswith closer s then Some ([], drop (length closer) s)
  else match s with
       | [] => None
       | c :: s' =>
           match lazy_group s' with
           | Some (g, rest) => Some (c :: g, rest)
           | None => None
           end
       end.
Proof. destruct s; reflexivity. Qed.

(** The lazy group stops at the first fence marker. *)
Lemma lazy_group_first b r :
  contains closer (b ++ removelast closer) = false ->
  lazy_group (b ++ closer ++ r) = Some (b, r).
Proof.
  induction b as [|c b IH]; intros H.
  - cbn [app]. rewrite lazy_group_eq, startswith_app, drop_app_length.
    reflexivity.
  - destruct (early_step closer c b r) as [H1 H2]; [discriminate | exact H |].
    rewrite lazy_group_eq, H1. cbn [app]. rewrite (IH H2). reflexivity.
Qed.

Lemma lazy_group_absent s : contains closer s = false -> lazy_group s = None.
Proof.
  induction s as [|c s IH]; intros H; [reflexivity|].
  apply contains_cons in H as [H1 H2].
  rewrite lazy_group_eq, H1, (IH H2). reflexivity.
Qed.

Lemma startswith_shorter p q s :
  startswith (p ++ q) s = true -> startswith p s = true.
Proof.
  revert s. induction p as [|a p IH]; intros s; [reflexivity|].
  destruct s as [|b s]; cbn; [discriminate|].
  intros H. apply andb_prop in H as [-> H]. exact (IH _ H).
Qed.

Lemma startswith_opener_closer s :
  startswith opener s = true -> startswith closer s = true.
Proof. apply (startswith_shorter closer (str "{python}")). Qed.

Lemma contains_opener_closer s :
  contains closer s = false -> contains opener s = false.
Proof.
  induction s as [|c s IH]; intros H; [reflexivity|].
  apply contains_cons in H as [H1 H2]. cbn [contains]. rewrite (IH H2).
  destruct (startswith opener (c :: s)) eqn:E; [|reflexivity].
  apply startswith_opener_closer in E. congruence.
Qed.

(** No opener, no match. *)
Lemma findall_no_opener s : contains opener s = false -> findall s = [].
Proof.
  induction s as [|c s IH]; intros H; rewrite findall_eq; unfold match_at.
  - reflexivity.
  - apply contains_cons in H as [H1 H2]. rewrite H1. exact (IH H2).
Qed.

(** The scan passes over text that does not write the opener. *)
Lemma findall_gap g r :
  contains opener (g ++ removelast opener) = false ->
  findall (g ++ opener ++ r) = findall (opener ++ r).
Proof.
  induction g as [|c g IH]; intros H; [reflexivity|].
  destruct (early_step opener c g r) as [H1 H2]; [discriminate | exact H |].
  rewrite findall_eq. unfold match_at. rewrite H1. cbn [app]. exact (IH H2).
Qed.

(** At an opener whose group the closer ends, one block is taken and the
    scan goes on after the closer. *)
Lemma findall_fence b r :
  lazy_group (b ++ closer ++ r) = Some (b, r) ->
  findall (opener ++ b ++ closer ++ r) = b :: findall r.
Proof.
  intros H. rewrite findall_eq. unfold match_at.
  rewrite startswith_app, drop_app_length, H. reflexivity.
Qed.

Lemma unbordered_opener : unbordered opener = true.
Proof. reflexivity. Qed.

Lemma gap_first g :
  contains opener g = false -> contains opener (g ++ removelast opener) = false.
Proof. apply unbordered_first; [discriminate | exact unbordered_opener]. Qed.

(** A body that ends in a character other than the backquote and holds no
    fence marker does not complete one with the closer that follows it. *)
Lemma closer_clean b c :
  c <> 96%N ->
  contains closer (b ++ [c]) = false ->
  contains closer ((b ++ [c]) ++ removelast closer) = false.
Proof.
  intros Hc. rewrite closer_eq. cbn [removelast].
  assert (Ec : N.eqb 96 c = false) by (apply N.eqb_neq; congruence).
  induction b as [|a b IH]; intros H.
  - cbn -[N.eqb]. rewrite Ec. reflexivity.
  - change ((a :: b) ++ [c]) with (a :: (b ++ [c])) in *.
    apply contains_cons in H as [H1 H2].
    change ((a :: b ++ [c]) ++ [96; 96]%N) with (a :: (b ++ [c]) ++ [96; 96]%N).
    cbn [contains]. rewrite (IH H2), orb_false_r.
    destruct b as [|a' b].
    + cbn -[N.eqb]. rewrite Ec, andb_false_r. reflexivity.
    + change (a :: ((a' :: b) ++ [c]) ++ [96; 96]%N)
        with ((a :: (a' :: b) ++ [c]) ++ [96; 96]%N).
      rewrite startswith_app_l; [exact H1|].
      cbn [length app]. rewrite length_app. cbn. lia.
Qed.

Lemma endswith_last p c : endswith [c] p = true -> exists b, p = b ++ [c].
Proof.
  unfold endswith. cbn [rev app]. destruct (rev p) as [|a x] eqn:E; [discriminate|].
  cbn -[N.eqb]. rewrite andb_true_r. intros H. apply N.eqb_eq in H. subst a.
  exists (rev x). rewrite <- (rev_involutive p), E. reflexivity.
Qed.

Lemma body_first b :
  endswith [newline] b = true -> contains closer b = false ->
  contains closer (b ++ removelast closer) = false.
Proof.
  intros He Hc. apply endswith_last in He as [b' ->].
  apply closer_clean; [discriminate | exact Hc].
Qed.

Lemma fence_pair_body body gap r :
  fence_pair (body, gap) = true ->
  findall (opener ++ body ++ closer ++ r) = body :: findall r.
Proof.
  unfold fence_pair. intros H.
  repeat (apply andb_prop in H as [H ?]).
  apply findall_fence, lazy_group_first, body_first; [assumption|].
  apply negb_true_iff. assumption.
Qed.

Lemma fence_pair_gap body gap :
  fence_pair (body, gap) = true -> contains opener gap = false.
Proof.
  unfold fence_pair. intros H. apply andb_prop in H as [_ H].
  apply negb_true_iff. exact H.
Qed.

Lemma fenced_scan gap0 pairs :
  contains opener gap0 = false ->
  forallb fence_pair pairs = true ->
  findall (gap0 ++ fenced pairs) = map fst pairs.
Proof.
  revert gap0. induction pairs as [|[body gap] rest IH]; intros gap0 Hg Hp.
  - cbn [fenced map]. rewrite app_nil_r. apply findall_no_opener, Hg.
  - cbn [forallb] in Hp. apply andb_prop in Hp as [Hp Hrest].
    cbn [fenced map fst].
    rewrite findall_gap by (apply gap_first, Hg).
    rewrite (fence_pair_body body gap) by exact Hp.
    rewrite IH; [reflexivity | exact (fence_pair_gap _ _ Hp) | exact Hrest].
Qed.

(** An opener the fence marker never follows starts no block, and nothing
    after it is scanned as one. *)
Lemma findall_open_end tail :
  contains closer tail = false -> findall (opener ++ tail) = [].
Proof.
  intros H. rewrite findall_eq. unfold match_at.
  rewrite startswith_app, drop_app_length, (lazy_group_absent _ H).
  rewrite opener_eq. cbn [app]. apply findall_no_opener.
  apply contains_opener_closer in H as Ho.
  rewrite opener_eq in *. cbn. exact Ho.
Qed.

Lemma dangling_scan gap0 pairs tail :
  contains opener gap0 = false ->
  forallb fence_pair pairs = true ->
  contains closer tail = false ->
  findall (gap0 ++ fenced pairs ++ opener ++ tail) = map fst pairs.
Proof.
  revert gap0. induction pairs as [|[body gap] rest IH]; intros gap0 Hg Hp Ht.
  - cbn [fenced map app]. rewrite findall_gap by (apply gap_first, Hg).
    apply findall_open_end, Ht.
  - cbn [forallb] in Hp. apply andb_prop in Hp as [Hp Hrest].
    cbn [fenced map fst]. rewrite <- !app_assoc.
    rewrite findall_gap by (apply gap_first, Hg).
    rewrite (fence_pair_body body gap) by exact Hp.
    rewrite IH; [reflexivity | exact (fence_pair_gap _ _ Hp) | exact Hrest | exact Ht].
Qed.

(** C1, as amended.  A document written as K fences, each with a newline
    after its opener, its closer alone on its line, no fence marker inside
    its body and no opener written in the text around the fences, yields
    exactly the K bodies: as many blocks as fences, in document order, each
    the literal text between opener and closer, newlines and blank lines
    included. *)
Theorem findall_fenced (gap0 : text) (pairs : list (text * text)) :
  contains opener gap0 = false ->
  forallb fence_pair pairs = true ->
  findall (gap0 ++ fenced pairs) = map fst pairs /\
  length (findall (gap0 ++ fenced pairs)) = length pairs.
Proof.
  intros Hg Hp. rewrite (fenced_scan gap0 pairs Hg Hp).
  split; [reflexivity | apply length_map].
Qed.

Lemma findall_fenced_witness :
  findall (str "# Chapter
" ++ fenced [(str "
x = 1

y = 2
", str "
prose
"); (str "
", [])]) = [str "
x = 1

y = 2
"; str "
"] /\
  length (findall (str "# Chapter
" ++ fenced [(str "
x = 1

y = 2
", str "
prose
"); (str "
", [])])) = 2.
Proof.
  apply (findall_fenced (str "# Chapter
") [(str "
x = 1

y = 2
", str "
prose
"); (str "
", [])]); reflexivity.
Defined.

(** C1, as stated, fails: a fence whose closer is the first line holding the
    fence marker alone may write the marker inside a line of its body, and
    the pattern ends the block there; and text that writes the opener inside
    a line, in front of a fence, is taken for an opener. *)
Lemma findall_fenced_counterexample :
  (contains (opener ++ [newline]) [] = false /\
   forallb stated_fence_pair [(str "
s = '```'
", [newline])] = true /\
   findall ([] ++ fenced [(str "
s = '```'
", [newline])]) = [str "
s = '"] /\
   findall ([] ++ fenced [(str "
s = '```'
", [newline])]) <> map fst [(str "
s = '```'
", [newline])]) /\
  (contains (opener ++ [newline]) (str "Write ```{python} to open.
") = false /\
   forallb stated_fence_pair [(str "
x = 1
", [newline])] = true /\
   findall (str "Write ```{python} to open.
" ++ fenced [(str "
x = 1
", [newline])]) = [str " to open.
"] /\
   findall (str "Write ```{python} to open.
" ++ fenced [(str "
x = 1
", [newline])]) <> map fst [(str "
x = 1
", [newline])]).
Proof. vm_compute. repeat split; discriminate. Qed.

(** C9, as amended.  When the document ends with an opener after which the
    fence marker is not written again, the scan ends, that opener starts no
    block, and the fences in front of it are returned as they are without
    it. *)
Theorem findall_dangling (gap0 : text) (pairs : list (text * text)) (tail : text) :
  contains opener gap0 = false ->
  forallb fence_pair pairs = true ->
  contains closer tail = false ->
  findall (gap0 ++ fenced pairs ++ opener ++ tail) = map fst pairs /\
  findall (gap0 ++ fenced pairs ++ opener ++ tail) = findall (gap0 ++ fenced pairs).
Proof.
  intros Hg Hp Ht.
  rewrite (dangling_scan gap0 pairs tail Hg Hp Ht).
  rewrite (fenced_scan gap0 pairs Hg Hp). split; reflexivity.
Qed.

Lemma findall_dangling_witness :
  findall ([] ++ fenced [(str "
x = 1
", [newline])] ++ opener ++ str "
y = 2
") = [str "
x = 1
"] /\
  findall ([] ++ fenced [(str "
x = 1
", [newline])] ++ opener ++ str "
y = 2
") = findall ([] ++ fenced [(str "
x = 1
", [newline])]).
Proof.
  apply (findall_dangling [] [(str "
x = 1
", [newline])] (str "
y = 2
")); reflexivity.
Defined.

(** C9, as stated, fails: an opener that no line holding the fence marker
    alone follows still starts a block when the marker is written again
    inside a line (here the opener of a fence in another language); and an
    opener left open in front of a complete fence takes the text up to that
    fence's opener, after which the complete fence is no longer found. *)
Lemma findall_dangling_counterexample :
  (contains closer_line (str "
x = 1
```bash
ls
") = false /\
   endswith (newline :: closer) (str "
x = 1
```bash
ls
") = false /\
   findall ([] ++ fenced [] ++ opener ++ str "
x = 1
```bash
ls
") = [str "
x = 1
"] /\
   findall ([] ++ fenced [] ++ opener ++ str "
x = 1
```bash
ls
") <> []) /\
  (forallb fence_pair [(str "
bar
", [newline])] = true /\
   findall (opener ++ str "
foo
" ++ fenced [(str "
bar
", [newline])]) = [str "
foo
"] /\
   ~ In (str "
bar
") (findall (opener ++ str "
foo
" ++ fenced [(str "
bar
", [newline])]))).
Proof.
  vm_compute. repeat split; try discriminate.
  intros [H | []]. discriminate.
Qed.

(** ** The loops of the execution validator *)

Section Execution.
Context {I : Interpreter}.

Lemma run_blocks_app pre post i env :
  run_blocks i (pre ++ post) env =
  match run_blocks i pre env with
  | (t, env1, None) =>
      let '(t', env2, a) := run_blocks (i + length pre) post env1 in
      (t ++ t', env2, a)
  | stopped => stopped
  end.
Proof.
  revert i env. induction pre as [|block pre IH]; intros i env.
  - cbn [app run_blocks length]. rewrite Nat.add_0_r.
    destruct (run_blocks i post env) as [[t' env2] a]. reflexivity.
  - cbn [app run_blocks length].
    destruct (run_block i block env) as [[tb envb] [a|]]; [reflexivity|].
    rewrite IH. replace (S i + length pre) with (i + S (length pre)) by lia.
    destruct (run_blocks (S i) pre envb) as [[t env1] [a|]]; [reflexivity|].
    destruct (run_blocks (i + S (length pre)) post env1) as [[t' env2] a].
    rewrite app_assoc. reflexivity.
Qed.

(** A block reached at environment [env] and not stopping the run hands
    the environment it leaves to the blocks after it. *)
Lemma run_blocks_at pre block post i env0 t env tb env' :
  run_blocks i pre env0 = (t, env, None) ->
  run_block (i + length pre) block env = (tb, env', None) ->
  exists t' env'' a,
    run_blocks (S (i + length pre)) post env' = (t', env'', a) /\
    run_blocks i (pre ++ block :: post) env0 = (t ++ tb ++ t', env'', a).
Proof.
  intros Hpre Hb. rewrite run_blocks_app, Hpre. cbn [run_blocks]. rewrite Hb.
  destruct (run_blocks (S (i + length pre)) post env') as [[t' env''] a].
  exists t', env'', a. split; reflexivity.
Qed.


Lemma excluded_truthy block_code : excluded block_code = true -> truthy block_code = true.
Proof. destruct block_code; [discriminate | reflexivity]. Qed.

Lemma excluded_app_r s t : excluded t = true -> excluded (s ++ t) = true.
Proof.
  unfold excluded. rewrite !existsb_exists.
  intros (skip & Hin & Hc). exists skip. split; [exact Hin|].
  apply contains_app_r, Hc.
Qed.

Lemma run_block_excluded i block env :
  excluded (strip block) = true ->
  run_block i block env = ([Print (Block_skipped i)], env, None).
Proof.
  intros H. unfold run_block. rewrite (excluded_truthy _ H), H. reflexivity.
Qed.


(** The outer handler makes no call into the interpreter, reports no block
    and no probe, and ends the function. *)
Lemma outer_handler_quiet r :
  parsed (fst (outer_handler r)) = [] /\
  executed (fst (outer_handler r)) = [] /\
  evaluated (fst (outer_handler r)) = [] /\
  block_indices (fst (outer_handler r)) = [] /\
  probe_names (fst (outer_handler r)) = [].
Proof. raised_cases r; repeat split. Qed.


Lemma executed_execute i code env :
  executed (fst (fst (execute i code env))) = [code].
Proof.
  unfold execute.
  destruct (py_exec code env) as [env' [[]|[] r|e|r|status|]]; try reflexivity.
  raised_cases r; reflexivity.
Qed.


Lemma contains_literal sep s r : contains sep (s ++ sep ++ r) = true.
Proof.
  apply contains_app_r. destruct (sep ++ r) eqn:E; cbn [contains];
    rewrite <- E, startswith_app; reflexivity.
Qed.


End Execution.

(** ** The exclusion policy *)

(** C3.  A block whose trimmed text holds one of the exclusion substrings
    is recorded as skipped and nothing else happens: wherever it stands
    (any index, any environment, any blocks around it), the only event is
    the SKIPPED line, [exec] is not called, and the environment is the one
    the block was reached with. *)
Theorem excluded_block_skipped {I : Interpreter} (block : text) :
  excluded (strip block) = true ->
  (forall i env,
     run_block i block env = ([Print (Block_skipped i)], env, None) /\
     executed (fst (fst (run_block i block env))) = []) /\
  (forall pre post i env0 t env,
     run_blocks i pre env0 = (t, env, None) ->
     exists t' env' a,
       run_blocks (S (i + length pre)) post env = (t', env', a) /\
       run_blocks i (pre ++ block :: post) env0 =
         (t ++ [Print (Block_skipped (i + length pre))] ++ t', env', a)).
Proof.
  intros H. split.
  - intros i env. rewrite (run_block_excluded i block env H). split; reflexivity.
  - intros pre post i env0 t env Hpre.
    apply (run_blocks_at pre block post i env0 t env _ env Hpre).
    apply run_block_excluded, H.
Qed.

Lemma excluded_block_skipped_witness :
  excluded (strip (str "
f = int  # mp.Pool(
")) = true /\
  run_block (I := Sample.python) 3 (str "
f = int  # mp.Pool(
") ∅ = ([Print (Block_skipped 3)], ∅, None).
Proof.
  split; [reflexivity|].
  apply (proj1 (excluded_block_skipped (I := Sample.python) (str "
f = int  # mp.Pool(
") eq_refl)).
Defined.

(** C10.  The exclusion check reads the whole trimmed text, before the
    guard is looked for: a block with an exclusion substring at or after the
    guard is skipped as a whole, so its text before the guard is not
    executed either and the environment stays as it was. *)
Theorem excluded_behind_guard {I : Interpreter} (block pre post : text) :
  strip block = pre ++ main_guard ++ post ->
  excluded (main_guard ++ post) = true ->
  forall i env,
    run_block i block env = ([Print (Block_skipped i)], env, None) /\
    executed (fst (fst (run_block i block env))) = [] /\
    snd (fst (run_block i block env)) = env.
Proof.
  intros Hs He i env.
  assert (H : excluded (strip block) = true)
    by (rewrite Hs; apply excluded_app_r, He).
  rewrite (run_block_excluded i block env H). repeat split.
Qed.

Lemma excluded_behind_guard_witness :
  run_block (I := Sample.python) 1
    (str "
f = int
" ++ main_guard ++ str ":
    pool.map(f, [1, 2])
") ∅ = ([Print (Block_skipped 1)], ∅, None).
Proof.
  apply (excluded_behind_guard (I := Sample.python) _ (str "f = int
") (str ":
    pool.map(f, [1, 2])")); reflexivity.
Defined.

(** ** Entry-point stripping *)



(** ** Failing blocks *)




(** ** Accumulation *)




(** ** The syntax validator *)

Section Syntax.
Context {I : Interpreter}.

Lemma parsed_app t t' : parsed (t ++ t') = parsed t ++ parsed t'.
Proof.
  induction t as [|[] t IH]; cbn [app parsed]; rewrite ?IH; reflexivity.
Qed.

Lemma check_blocks_blank i block rest :
  truthy (strip block) = false ->
  check_blocks i (block :: rest) = check_blocks (S i) rest.
Proof. intros H. cbn [check_blocks]. rewrite H. reflexivity. Qed.

(** Blocks that are blank or parse are passed over with an OK line for
    each of those that was parsed. *)
Lemma check_blocks_pass pre rest i :
  forallb (fun b => negb (truthy (strip b)) || parses (strip b)) pre = true ->
  exists t,
    check_blocks i (pre ++ rest) =
      (t ++ fst (check_blocks (i + length pre) rest),
       snd (check_blocks (i + length pre) rest)) /\
    parsed t = map strip (List.filter (fun b => truthy (strip b)) pre) /\
    Forall (fun l => exists j, l = Block_ok j) (printed t).
Proof.
  revert i. induction pre as [|block pre IH]; intros i H.
  - exists []. cbn [app length]. rewrite Nat.add_0_r.
    destruct (check_blocks i rest). repeat split. constructor.
  - cbn [forallb] in H. apply andb_prop in H as [Hb Hpre].
    destruct (IH (S i) Hpre) as (t & Ht & Hp & Hl).
    replace (i + length (block :: pre)) with (S i + length pre) by (cbn; lia).
    cbn [app check_blocks List.filter].
    destruct (truthy (strip block)) eqn:Hn.
    + unfold parses in Hb. cbn [negb orb] in Hb.
      destruct (ast_parse (strip block)); [|discriminate..].
      rewrite Ht. exists (Parse (strip block) :: Print (Block_ok i) :: t).
      repeat split.
      * cbn [parsed map]. rewrite Hp. reflexivity.
      * cbn [printed]. constructor; [eauto | exact Hl].
    + exists t. repeat split; assumption.
Qed.


End Syntax.

(** A sequence with a non-blank block that does not parse has a first
    one. *)
Lemma first_failure {I : Interpreter} (blocks : list text) :
  existsb (fun b => truthy (strip b) && negb (parses (strip b))) blocks = true ->
  exists pre block post,
    blocks = pre ++ block :: post /\
    forallb (fun b => negb (truthy (strip b)) || parses (strip b)) pre = true /\
    truthy (strip block) = true /\
    parses (strip block) = false.
Proof.
  induction blocks as [|b rest IH]; intros H; [discriminate|].
  cbn [existsb] in H.
  destruct (truthy (strip b) && negb (parses (strip b))) eqn:Hb.
  - apply andb_prop in Hb as [Hn Hp]. apply negb_true_iff in Hp.
    exists [], b, rest. repeat split; assumption.
  - destruct (IH H) as (pre & block & post & -> & Hpre & Hn & Hp).
    exists (b :: pre), block, post. repeat split; try assumption.
    cbn [forallb]. rewrite Hpre, andb_true_r.
    destruct (truthy (strip b)); [|reflexivity].
    destruct (parses (strip b)); [reflexivity | discriminate].
Qed.

(** The run up to the first block that is neither blank nor passed. *)
Lemma syntax_run_at {I : Interpreter}
    (content : text) (pre post : list text) (block : text) :
  findall content = pre ++ block :: post ->
  forallb (fun b => negb (truthy (strip b)) || parses (strip b)) pre = true ->
  exists t,
    test_multiprocessing_syntax (Readable content) =
      (Print Testing_syntax :: Print (Found (length (findall content))) ::
       t ++ fst (check_blocks (S (length pre)) (block :: post)),
       snd (check_blocks (S (length pre)) (block :: post))) /\
    parsed t = map strip (List.filter (fun b => truthy (strip b)) pre) /\
    Forall (fun l => exists j, l = Block_ok j) (printed t).
Proof.
  intros Hf Hpre.
  destruct (check_blocks_pass pre (block :: post) 1 Hpre) as (t & Ht & Hp & Hl).
  exists t. repeat split; try assumption.
  unfold test_multiprocessing_syntax. rewrite Hf, Ht. reflexivity.
Qed.

(** C7, as amended.  When some non-blank block of the document does not
    parse, take the first one: every block before it is blank or parses.
    The validator returns failure; before that block it printed only OK
    lines and parsed only the non-blank blocks in front of it; the parse of
    that block is its last call into the parser, so no block after it is
    parsed.  What it reports depends on what the parser raised.  For
    [SyntaxError] the last events are the SYNTAX ERROR line with the
    block's 1-based index and the parser's message, and the preview line
    with the first 100 characters of the trimmed block.  For another
    instance of [Exception] the outer handler ends the run with the line
    [Error reading file:] and the message, without an index and without a
    preview.  A blank block is passed over without a parse, whatever the
    parser would make of it, and is never a failure. *)
Theorem first_syntax_error_stops {I : Interpreter} (content : text) :
  existsb (fun b => truthy (strip b) && negb (parses (strip b)))
          (findall content) = true ->
  (exists pre block post t,
     findall content = pre ++ block :: post /\
     forallb (fun b => negb (truthy (strip b)) || parses (strip b)) pre = true /\
     truthy (strip block) = true /\
     ((exists e,
         ast_parse (strip block) = Syntax_error e /\
         test_multiprocessing_syntax (Readable content) =
           (Print Testing_syntax :: Print (Found (length (findall content))) ::
            t ++ [Parse (strip block);
                  Print (Block_syntax_error (S (length pre)) e);
                  Print (Block_preview (take 100 (strip block)))],
            false)) \/
      (exists e,
         ast_parse (strip block) = Parse_error e /\
         test_multiprocessing_syntax (Readable content) =
           (Print Testing_syntax :: Print (Found (length (findall content))) ::
            t ++ [Parse (strip block); Print (Error_reading e)],
            false))) /\
     Forall (fun l => exists j, l = Block_ok j) (printed t) /\
     parsed (fst (test_multiprocessing_syntax (Readable content))) =
       map strip (List.filter (fun b => truthy (strip b)) pre) ++ [strip block]) /\
  (forall blank rest i,
     truthy (strip blank) = false ->
     check_blocks i (blank :: rest) = check_blocks (S i) rest).
Proof.
  intros H. split; [|intros blank rest i; apply check_blocks_blank].
  destruct (first_failure _ H) as (pre & block & post & Hf & Hpre & Hn & Hp).
  destruct (syntax_run_at content pre post block Hf Hpre) as (t & Hrun & Hpt & Hl).
  exists pre, block, post, t.
  split; [exact Hf|]. split; [exact Hpre|]. split; [exact Hn|].
  rewrite Hrun. cbn [check_blocks fst snd]. rewrite Hn.
  unfold parses in Hp.
  destruct (ast_parse (strip block)) as [|e|e]; [discriminate| |].
  - split; [left; exists e; split; reflexivity|]. split; [exact Hl|].
    cbn [fst parsed]. rewrite parsed_app, Hpt. reflexivity.
  - split; [right; exists e; split; reflexivity|]. split; [exact Hl|].
    cbn [fst parsed]. rewrite parsed_app, Hpt. reflexivity.
Qed.

Lemma first_syntax_error_stops_witness :
  exists pre block post t,
    findall Sample.chapter = pre ++ block :: post /\
    forallb (fun b => negb (truthy (strip b)) ||
                      parses (I := Sample.python) (strip b)) pre = true /\
    truthy (strip block) = true /\
    ((exists e,
        ast_parse (Interpreter := Sample.python) (strip block) = Syntax_error e /\
        test_multiprocessing_syntax (I := Sample.python) (Readable Sample.chapter) =
          (Print Testing_syntax :: Print (Found (length (findall Sample.chapter))) ::
           t ++ [Parse (strip block);
                 Print (Block_syntax_error (S (length pre)) e);
                 Print (Block_preview (take 100 (strip block)))],
           false)) \/
     (exists e,
        ast_parse (Interpreter := Sample.python) (strip block) = Parse_error e /\
        test_multiprocessing_syntax (I := Sample.python) (Readable Sample.chapter) =
          (Print Testing_syntax :: Print (Found (length (findall Sample.chapter))) ::
           t ++ [Parse (strip block); Print (Error_reading e)],
           false))) /\
    Forall (fun l => exists j, l = Block_ok j) (printed t) /\
    parsed (fst (test_multiprocessing_syntax (I := Sample.python)
                   (Readable Sample.chapter))) =
      map strip (List.filter (fun b => truthy (strip b)) pre) ++ [strip block].
Proof.
  assert (H : existsb (fun b => truthy (strip b) &&
                                negb (parses (I := Sample.python) (strip b)))
                      (findall Sample.chapter) = true)
    by (vm_compute; reflexivity).
  exact (proj1 (first_syntax_error_stops (I := Sample.python) Sample.chapter H)).
Defined.

Lemma deep_chapter_facts :
  findall Sample.deep_chapter = [newline :: Sample.too_deep ++ [newline]] /\
  strip (newline :: Sample.too_deep ++ [newline]) = Sample.too_deep /\
  truthy Sample.too_deep = true /\
  ast_parse (Interpreter := Sample.python) Sample.too_deep =
    Parse_error Sample.too_complex.
Proof.
  split; [vm_compute; reflexivity|].
  split; [vm_compute; reflexivity|].
  split; [reflexivity|]. vm_compute; reflexivity.
Qed.

(** C7, as stated, fails when the parser raises another error than
    [SyntaxError]: on an expression nested too deep for it the run stops at
    the block, but what is reported is the line of the outer handler,
    without the block's index and without a preview. *)
Lemma first_syntax_error_stops_counterexample :
  existsb (fun b => truthy (strip b) &&
                    negb (parses (I := Sample.python) (strip b)))
          (findall Sample.deep_chapter) = true /\
  test_multiprocessing_syntax (I := Sample.python) (Readable Sample.deep_chapter) =
    ([Print Testing_syntax; Print (Found 1); Parse Sample.too_deep;
      Print (Error_reading Sample.too_complex)], false).
Proof.
  destruct deep_chapter_facts as (Hf & Hs & Ht & Hp). split.
  - rewrite Hf. cbn [existsb]. unfold parses. rewrite Hs, Ht, Hp. reflexivity.
  - unfold test_multiprocessing_syntax. rewrite Hf. cbn [check_blocks length].
    rewrite Hs, Ht, Hp. reflexivity.
Qed.

Example syntax_validator_example :
  test_multiprocessing_syntax (I := Sample.python) (Readable Sample.chapter) =
    ([Print Testing_syntax; Print (Found 5);
      Parse Sample.define_f; Print (Block_ok 1);
      Parse Sample.broken;
      Print (Block_syntax_error 3 (Sample.invalid_syntax "<unknown>"));
      Print (Block_preview Sample.broken)],
     false).
Proof. reflexivity. Qed.

(** ** Probing *)

Section Probing.
Context {I : Interpreter}.






End Probing.




Example execution_validator_example :
  extract_and_test_multiprocessing (I := Sample.python) (Readable (str "
```{python}
f()
```
```{python}
f = int  # mp.Pool(
```
```{python}
f = int

" ++ main_guard ++ str ":
    raise SystemExit(1)
```
```{python}
f()
```
")) =
    ([Print Testing_execution; Print (Found 4);
      Exec Sample.call_f;
      Print (Block_error 1 (Sample.not_defined (str "f")));
      Print (Block_skipped 2);
      Exec Sample.define_f; Print (Block_executed 3);
      Exec Sample.call_f; Print (Block_executed 4);
      Print Testing_functions;
      Print (Probe_not_found (str "square_number"));
      Print (Probe_not_found (str "word_count_mapper"));
      Print (Probe_not_found (str "word_count_reducer"));
      Print (Probe_not_found (str "square_mapper"));
      Print (Probe_not_found (str "sum_reducer"));
      Print Completed],
     Returned true).
Proof. reflexivity. Qed.

(** ** Exit status *)






(** * Further properties of the scripts *)

(** ** Occurrences, once more *)

Lemma startswith_iff p s : startswith p s = true <-> exists r, s = p ++ r.
Proof.
  split.
  - revert s. induction p as [|a p IH]; intros s H.
    + exists s. reflexivity.
    + destruct s as [|b s]; [discriminate|]. cbn [startswith] in H.
      apply andb_prop in H as [Hab H]. apply N.eqb_eq in Hab. subst b.
      destruct (IH _ H) as [r ->]. exists r. reflexivity.
  - intros [r ->]. apply startswith_app.
Qed.

Lemma contains_iff p s : contains p s = true <-> exists a b, s = a ++ p ++ b.
Proof.
  split.
  - induction s as [|c s IH]; cbn [contains]; intros H.
    + rewrite orb_false_r in H. apply startswith_iff in H as [r Hr].
      exists [], r. exact Hr.
    + apply orb_prop in H as [H | H].
      * apply startswith_iff in H as [r Hr]. exists [], r. exact Hr.
      * destruct (IH H) as (a & b & ->). exists (c :: a), b. reflexivity.
  - intros (a & b & ->). apply contains_literal.
Qed.

Lemma bool_eq_iff (b1 b2 : bool) : (b1 = true <-> b2 = true) -> b1 = b2.
Proof.
  destruct b1, b2; intros [H1 H2]; try reflexivity;
    [symmetry; exact (H1 eq_refl) | exact (H2 eq_refl)].
Qed.

(** A literal that occurs in a part of a text occurs in the text. *)
Lemma contains_part p a t b :
  contains p t = true -> contains p (a ++ t ++ b) = true.
Proof.
  intros H. apply contains_iff in H as (a' & b' & ->).
  apply contains_iff. exists (a ++ a'), (b' ++ b).
  rewrite <- !app_assoc. reflexivity.
Qed.

Lemma contains_part_false p a t b :
  contains p (a ++ t ++ b) = false -> contains p t = false.
Proof.
  intros H. destruct (contains p t) eqn:E; [|reflexivity].
  rewrite (contains_part p a t b E) in H. discriminate.
Qed.

Lemma contains_rev p s : contains (rev p) (rev s) = contains p s.
Proof.
  apply bool_eq_iff. rewrite !contains_iff. split.
  - intros (a & b & H). exists (rev b), (rev a).
    apply (f_equal (@rev N)) in H. rewrite rev_involutive in H. rewrite H.
    rewrite !rev_app_distr, rev_involutive, <- app_assoc. reflexivity.
  - intros (a & b & ->). exists (rev b), (rev a).
    rewrite !rev_app_distr, <- app_assoc. reflexivity.
Qed.

(** ** What [strip] removes *)

Lemma lstrip_suffix s : exists w, s = w ++ lstrip s /\ forallb isspace w = true.
Proof.
  induction s as [|c s (w & Hs & Hw)].
  - exists []. split; reflexivity.
  - cbn [lstrip]. destruct (isspace c) eqn:E.
    + exists (c :: w). split; [cbn; congruence | cbn; rewrite E, Hw; reflexivity].
    + exists []. split; reflexivity.
Qed.

Lemma rstrip_prefix s : exists w, s = rstrip s ++ w /\ forallb isspace w = true.
Proof.
  unfold rstrip. destruct (lstrip_suffix (rev s)) as (w & Hs & Hw).
  exists (rev w). split.
  - rewrite <- rev_app_distr, <- Hs, rev_involutive. reflexivity.
  - rewrite forallb_forall in *. intros c Hc. apply Hw, in_rev. exact Hc.
Qed.

Lemma strip_part s : exists a b, s = a ++ strip s ++ b.
Proof.
  unfold strip. destruct (lstrip_suffix s) as (a & Ha & _).
  destruct (rstrip_prefix (lstrip s)) as (b & Hb & _).
  exists a, b. rewrite <- Hb. exact Ha.
Qed.

Lemma lstrip_solid s :
  match s with [] => True | c :: _ => isspace c = false end -> lstrip s = s.
Proof. destruct s as [|c s]; [reflexivity|]. cbn. intros ->. reflexivity. Qed.

Lemma lstrip_head s :
  match lstrip s with [] => True | c :: _ => isspace c = false end.
Proof.
  induction s as [|c s IH]; [exact Logic.I|].
  cbn [lstrip]. destruct (isspace c) eqn:E; [exact IH | exact E].
Qed.

Lemma lstrip_idempotent s : lstrip (lstrip s) = lstrip s.
Proof. apply lstrip_solid, lstrip_head. Qed.

Lemma rstrip_idempotent s : rstrip (rstrip s) = rstrip s.
Proof. unfold rstrip. rewrite rev_involutive, lstrip_idempotent. reflexivity. Qed.

(** Cutting the end of a text leaves its first character where it is. *)
Lemma rstrip_head s :
  match s with [] => True | c :: _ => isspace c = false end ->
  match rstrip s with [] => True | c :: _ => isspace c = false end.
Proof.
  intros H. destruct (rstrip_prefix s) as (w & Hs & _).
  destruct (rstrip s) as [|c r]; [exact Logic.I|].
  rewrite Hs in H. exact H.
Qed.

Lemma strip_idempotent s : strip (strip s) = strip s.
Proof.
  unfold strip at 1.
  rewrite (lstrip_solid (strip s)); [apply rstrip_idempotent|].
  unfold strip. apply rstrip_head, lstrip_head.
Qed.

Lemma lstrip_blank s : forallb isspace s = true -> lstrip s = [].
Proof.
  induction s as [|c s IH]; [reflexivity|]. cbn.
  intros H. apply andb_prop in H as [-> H]. exact (IH H).
Qed.

Lemma forallb_rev (f : N -> bool) s : forallb f (rev s) = forallb f s.
Proof.
  apply bool_eq_iff. rewrite !forallb_forall. split; intros H c Hc; apply H.
  - apply in_rev in Hc. exact Hc.
  - apply in_rev. exact Hc.
Qed.

(** A literal with solid edges lies inside what [strip] keeps. *)
Lemma contains_lstrip p s :
  match p with [] => False | a :: _ => isspace a = false end ->
  contains p (lstrip s) = contains p s.
Proof.
  intros Hp. induction s as [|c s IH]; [reflexivity|].
  cbn [lstrip]. destruct (isspace c) eqn:E; [|reflexivity].
  rewrite IH. cbn [contains].
  destruct p as [|a p]; [contradiction|]. cbn [startswith].
  destruct (N.eqb_spec a c) as [->|_]; [congruence | reflexivity].
Qed.

Lemma edges_solid_head p :
  edges_solid p = true ->
  match p with [] => False | a :: _ => isspace a = false end /\
  match rev p with [] => False | a :: _ => isspace a = false end.
Proof.
  unfold edges_solid. destruct p as [|a p]; [discriminate|].
  destruct (rev (a :: p)) as [|b q]; [discriminate|].
  intros H. apply andb_prop in H as [H1 H2].
  apply negb_true_iff in H1, H2. split; assumption.
Qed.

Lemma contains_strip p s : edges_solid p = true -> contains p (strip s) = contains p s.
Proof.
  intros H. apply edges_solid_head in H as [Hh Hl].
  unfold strip, rstrip.
  rewrite <- (contains_rev p), rev_involutive, (contains_lstrip (rev p)) by exact Hl.
  rewrite contains_rev. apply contains_lstrip, Hh.
Qed.

(** ** What the extraction step returns, for any document *)

Lemma lazy_group_sound s g rest :
  lazy_group s = Some (g, rest) ->
  s = g ++ closer ++ rest /\ contains closer g = false.
Proof.
  revert g rest. induction s as [|c s IH]; intros g rest; rewrite lazy_group_eq.
  - cbn. discriminate.
  - destruct (startswith closer (c :: s)) eqn:E.
    + intros [= <- <-]. apply startswith_iff in E as [r Hr].
      rewrite closer_eq in Hr. injection Hr as -> ->. split; reflexivity.
    + destruct (lazy_group s) as [[g' rest']|] eqn:L; [|discriminate].
      intros [= <- <-]. destruct (IH _ _ eq_refl) as [-> Hg]. split; [reflexivity|].
      cbn [contains]. rewrite Hg, orb_false_r.
      destruct (startswith closer (c :: g')) eqn:S; [|reflexivity].
      apply startswith_iff in S as [r Hr].
      assert (startswith closer (c :: g' ++ closer ++ rest') = true); [|congruence].
      apply startswith_iff. exists (r ++ closer ++ rest').
      change (c :: g' ++ closer ++ rest') with ((c :: g') ++ closer ++ rest').
      rewrite Hr, <- app_assoc. reflexivity.
Qed.

Lemma match_at_sound s g rest :
  match_at s = Some (g, rest) ->
  s = opener ++ g ++ closer ++ rest /\ contains closer g = false.
Proof.
  unfold match_at. destruct (startswith opener s) eqn:E; [|discriminate].
  apply startswith_iff in E as [r Hr]. rewrite Hr, drop_app_length.
  intros H. apply lazy_group_sound in H as [Hs Hg]. rewrite Hs.
  split; [reflexivity | exact Hg].
Qed.

Lemma findall_layout_bounded n s :
  length s <= n ->
  exists gap0 pairs,
    s = gap0 ++ fenced pairs /\
    findall s = map fst pairs /\
    Forall (fun pair => contains closer (fst pair) = false) pairs.
Proof.
  revert s. induction n as [|n IH]; intros s Hn; rewrite findall_eq.
  - destruct s; [|cbn in Hn; lia].
    exists [], []. repeat split. constructor.
  - destruct (match_at s) as [[g rest]|] eqn:E.
    + destruct (match_at_sound _ _ _ E) as [Hs Hg].
      destruct (IH rest) as (gap & pairs & Hr & Hf & Hc).
      { apply (f_equal (@length N)) in Hs. rewrite !length_app in Hs.
        change (length opener) with 11 in Hs. lia. }
      exists [], ((g, gap) :: pairs). repeat split.
      * cbn [fenced app]. rewrite <- Hr. exact Hs.
      * cbn [map fst]. rewrite Hf. reflexivity.
      * constructor; [exact Hg | exact Hc].
    + destruct s as [|c s].
      * exists [], []. repeat split. constructor.
      * destruct (IH s) as (gap & pairs & Hr & Hf & Hc); [cbn in Hn; lia|].
        exists (c :: gap), pairs. repeat split; [cbn; congruence | exact Hf | exact Hc].
Qed.

(** X1.  Whatever the document, the blocks [re.findall] returns are the
    bodies of fences that stand in it one after the other: the document is
    some text, then for each block in turn the opener, the block, the closer
    and some more text.  No block holds the fence marker. *)
Theorem findall_layout (content : text) :
  exists gap0 pairs,
    content = gap0 ++ fenced pairs /\
    findall content = map fst pairs /\
    Forall (fun pair => contains closer (fst pair) = false) pairs.
Proof. apply (findall_layout_bounded (length content)). lia. Qed.

(** ** A chapter without Python fences *)

(** X2.  A readable chapter that never writes the opener has no blocks: the
    syntax validator reports 0 blocks found and passes without a parse, and
    the execution validator executes nothing, reports each of the five
    probed functions NOT FOUND and still returns success. *)
Theorem no_fence_runs {I : Interpreter} (content : text) :
  contains opener content = false ->
  test_multiprocessing_syntax (Readable content) =
    ([Print Testing_syntax; Print (Found 0); Print All_passed], true) /\
  extract_and_test_multiprocessing (Readable content) =
    ([Print Testing_execution; Print (Found 0); Print Testing_functions;
      Print (Probe_not_found (str "square_number"));
      Print (Probe_not_found (str "word_count_mapper"));
      Print (Probe_not_found (str "word_count_reducer"));
      Print (Probe_not_found (str "square_mapper"));
      Print (Probe_not_found (str "sum_reducer"));
      Print Completed],
     Returned true).
Proof.
  intros H. unfold test_multiprocessing_syntax, extract_and_test_multiprocessing.
  rewrite (findall_no_opener content H). split; [reflexivity|].
  cbn [run_blocks length]. unfold test_functions, run_probes, run_probe.
  rewrite !lookup_empty. reflexivity.
Qed.

Lemma no_fence_runs_witness :
  test_multiprocessing_syntax (I := Sample.python) (Readable (str "# Notes
```bash
ls
```
")) = ([Print Testing_syntax; Print (Found 0); Print All_passed], true).
Proof.
  apply (no_fence_runs (I := Sample.python) (str "# Notes
```bash
ls
```
")). reflexivity.
Defined.

(** ** Which interpreter services a script uses *)

Section Calls.
Context {I : Interpreter}.

Lemma executed_app t t' : executed (t ++ t') = executed t ++ executed t'.
Proof.
  induction t as [|[] t IH]; cbn [app executed]; rewrite ?IH; reflexivity.
Qed.

Lemma evaluated_app t t' : evaluated (t ++ t') = evaluated t ++ evaluated t'.
Proof.
  induction t as [|[] t IH]; cbn [app evaluated]; rewrite ?IH; reflexivity.
Qed.

Lemma printed_app t t' : printed (t ++ t') = printed t ++ printed t'.
Proof.
  induction t as [|[] t IH]; cbn [app printed]; rewrite ?IH; reflexivity.
Qed.

Lemma check_blocks_calls i blocks :
  executed (fst (check_blocks i blocks)) = [] /\
  evaluated (fst (check_blocks i blocks)) = [].
Proof.
  revert i. induction blocks as [|block rest IH]; intros i; [split; reflexivity|].
  cbn [check_blocks]. destruct (truthy (strip block)); [|apply IH].
  destruct (ast_parse (strip block)); [|split; reflexivity..].
  specialize (IH (S i)). destruct (check_blocks (S i) rest). exact IH.
Qed.

Lemma run_block_parsed i block env : parsed (fst (fst (run_block i block env))) = [].
Proof.
  unfold run_block. destruct (negb (truthy (strip block))); [reflexivity|].
  destruct (excluded (strip block)); [reflexivity|]. unfold execute.
  destruct (py_exec _ env) as [env' [[]|[] r|e|r|status|]]; try reflexivity;
    raised_cases r; reflexivity.
Qed.

Lemma run_blocks_parsed i blocks env : parsed (fst (fst (run_blocks i blocks env))) = [].
Proof.
  revert i env. induction blocks as [|block rest IH]; intros i env; [reflexivity|].
  cbn [run_blocks]. pose proof (run_block_parsed i block env) as Hb.
  destruct (run_block i block env) as [[t env'] [a|]]; [exact Hb|].
  specialize (IH (S i) env'). destruct (run_blocks (S i) rest env') as [[t' env''] a].
  cbn [fst] in *. rewrite parsed_app, Hb, IH. reflexivity.
Qed.

Lemma run_probes_parsed probes env : parsed (fst (fst (run_probes probes env))) = [].
Proof.
  revert env. induction probes as [|[func_name test_call] rest IH]; intros env;
    [reflexivity|].
  cbn [run_probes].
  assert (Hb : parsed (fst (fst (run_probe func_name test_call env))) = []).
  { unfold run_probe. destruct (env !! func_name); [|reflexivity].
    destruct (py_eval test_call env) as [env' [r|r r0|e|r0|status|]]; try reflexivity;
      raised_cases r0; reflexivity. }
  destruct (run_probe func_name test_call env) as [[t env'] [a|]]; [exact Hb|].
  specialize (IH env'). destruct (run_probes rest env') as [[t' env''] a].
  cbn [fst] in *. rewrite parsed_app, Hb, IH. reflexivity.
Qed.

End Calls.

(** X3.  The syntax validator never calls [exec] or [eval], on any file:
    it only parses and prints.  The execution validator never calls
    [ast.parse], although it imports [ast]: a block that does not parse is
    found out only by executing it. *)
Theorem validators_keep_to_their_calls {I : Interpreter} (file : source) :
  executed (fst (test_multiprocessing_syntax file)) = [] /\
  evaluated (fst (test_multiprocessing_syntax file)) = [] /\
  parsed (fst (extract_and_test_multiprocessing file)) = [].
Proof.
  destruct file as [content|e]; [|repeat split].
  unfold test_multiprocessing_syntax, extract_and_test_multiprocessing.
  destruct (check_blocks_calls 1 (findall content)) as [Hx Hv].
  destruct (check_blocks 1 (findall content)) as [t ok]. cbn [fst] in *.
  split; [exact Hx|]. split; [exact Hv|].
  pose proof (run_blocks_parsed 1 (findall content) ∅) as Hb.
  destruct (run_blocks 1 (findall content) ∅) as [[tb env] [a|]]; cbn [fst] in *.
  - cbn [app parsed]. exact Hb.
  - pose proof (run_probes_parsed test_functions env) as Hp.
    destruct (run_probes test_functions env) as [[tp env'] [a|]]; cbn [fst] in *;
      cbn [app parsed]; rewrite parsed_app, Hb; cbn [app parsed];
      rewrite ?parsed_app, Hp; reflexivity.
Qed.

(** ** What is handed to the interpreter *)

Lemma startswith_extend p x y : startswith p x = true -> startswith p (x ++ y) = true.
Proof.
  intros H. apply startswith_iff in H as [r ->].
  apply startswith_iff. exists (r ++ y). rewrite app_assoc. reflexivity.
Qed.

Lemma split_head_prefix sep s : exists r, s = split_head sep s ++ r.
Proof.
  induction s as [|c s [r Hr]]; rewrite split_head_eq.
  - exists []. destruct (startswith sep []); reflexivity.
  - destruct (startswith sep (c :: s)).
    + exists (c :: s). reflexivity.
    + exists r. cbn [app]. congruence.
Qed.

(** The text in front of the first occurrence does not hold the literal. *)
Lemma contains_split_head sep s :
  sep <> [] -> contains sep (split_head sep s) = false.
Proof.
  intros Hne. induction s as [|c s IH]; rewrite split_head_eq.
  - destruct (startswith sep []); destruct sep; congruence || reflexivity.
  - destruct (startswith sep (c :: s)) eqn:E.
    + destruct sep; [congruence | reflexivity].
    + cbn [contains]. rewrite IH, orb_false_r.
      destruct (startswith sep (c :: split_head sep s)) eqn:S; [|reflexivity].
      destruct (split_head_prefix sep s) as [r Hr].
      apply (startswith_extend _ _ r) in S. cbn [app] in S.
      rewrite <- Hr in S. congruence.
Qed.

Lemma excluded_part a t b : excluded (a ++ t ++ b) = false -> excluded t = false.
Proof.
  intros H. destruct (excluded t) eqn:E; [|reflexivity].
  unfold excluded in *. apply existsb_exists in E as (skip & Hin & Hc).
  assert (existsb (fun skip => contains skip (a ++ t ++ b)) skip_patterns = true);
    [|congruence].
  apply existsb_exists. exists skip. split; [exact Hin|].
  apply contains_part, Hc.
Qed.

Lemma executable_safe code :
  excluded code = false -> strip code = code ->
  excluded (executable code) = false /\
  contains main_guard (executable code) = false /\
  strip (executable code) = executable code.
Proof.
  intros He Hs. unfold executable.
  destruct (contains main_guard code) eqn:Hg; [|repeat split; assumption].
  destruct (split_head_prefix main_guard code) as [r Hr].
  destruct (strip_part (split_head main_guard code)) as (a & b & Hab).
  split; [|split].
  - apply (excluded_part a _ (b ++ r)).
    rewrite app_assoc, app_assoc, <- (app_assoc a), <- Hab, <- Hr. exact He.
  - apply (contains_part_false _ a _ b). rewrite <- Hab.
    apply contains_split_head. discriminate.
  - apply strip_idempotent.
Qed.

Lemma run_block_safe {I : Interpreter} i block env :
  Forall (fun code =>
            excluded code = false /\
            contains main_guard code = false /\
            strip code = code)
         (executed (fst (fst (run_block i block env)))).
Proof.
  unfold run_block. destruct (negb (truthy (strip block))); [constructor|].
  destruct (excluded (strip block)) eqn:He; [constructor|].
  rewrite executed_execute. constructor; [|constructor].
  apply executable_safe; [exact He | apply strip_idempotent].
Qed.

(** X4.  Nothing the exclusion policy or the guard is meant to keep away
    reaches [exec]: in every run, every text handed to [exec] holds none of
    the exclusion substrings and no entry-point guard, and is trimmed. *)
Theorem executed_texts_safe {I : Interpreter}
    (i : nat) (blocks : list text) (env : gmap text value) :
  Forall (fun code =>
            excluded code = false /\
            contains main_guard code = false /\
            strip code = code)
         (executed (fst (fst (run_blocks i blocks env)))).
Proof.
  revert i env. induction blocks as [|block rest IH]; intros i env; [constructor|].
  cbn [run_blocks]. pose proof (run_block_safe i block env) as Hb.
  destruct (run_block i block env) as [[t env'] [a|]]; [exact Hb|].
  specialize (IH (S i) env'). destruct (run_blocks (S i) rest env') as [[t' env''] a].
  cbn [fst] in *. rewrite executed_app. apply Forall_app. split; assumption.
Qed.

(** X5.  Whether a block is skipped, and whether the guard is seen in it,
    does not depend on the whitespace around the block: the literals looked
    for neither start nor end with a character [strip] removes, so looking
    in the trimmed text and in the raw block gives the same answer. *)
Theorem exclusion_ignores_whitespace (block : text) :
  excluded (strip block) = excluded block /\
  contains main_guard (strip block) = contains main_guard block.
Proof.
  split.
  - unfold excluded, skip_patterns. cbn [existsb].
    rewrite !contains_strip by reflexivity. reflexivity.
  - apply contains_strip. reflexivity.
Qed.

(** ** Numbering and reporting *)

Section Reports.
Context {I : Interpreter}.

Lemma block_indices_app t t' : block_indices (t ++ t') = block_indices t ++ block_indices t'.
Proof.
  induction t as [|[[]| | |] t IH]; cbn [app block_indices]; rewrite ?IH; reflexivity.
Qed.

Lemma probe_names_app t t' : probe_names (t ++ t') = probe_names t ++ probe_names t'.
Proof.
  induction t as [|[[]| | |] t IH]; cbn [app probe_names]; rewrite ?IH; reflexivity.
Qed.

Lemma run_block_indices i block env :
  block_indices (fst (fst (run_block i block env))) =
  match snd (run_block i block env) with
  | Some _ => []
  | None => if truthy (strip block) then [i] else []
  end.
Proof.
  unfold run_block. destruct (truthy (strip block)); [|reflexivity]. cbn [negb].
  destruct (excluded (strip block)); [reflexivity|]. unfold execute.
  destruct (py_exec _ env) as [env' [[]|[] r|e|r|status|]]; try reflexivity;
    raised_cases r; reflexivity.
Qed.

Lemma run_blocks_indices i blocks env :
  exists rest,
    nonblank_positions i blocks =
      block_indices (fst (fst (run_blocks i blocks env))) ++ rest /\
    (snd (run_blocks i blocks env) = None -> rest = []).
Proof.
  revert i env. induction blocks as [|block others IH]; intros i env.
  - exists []. split; reflexivity.
  - cbn [run_blocks nonblank_positions].
    pose proof (run_block_indices i block env) as Hb.
    destruct (run_block i block env) as [[t env'] [a|]]; cbn [fst snd] in *.
    + rewrite Hb. eexists. split; [reflexivity | discriminate].
    + destruct (IH (S i) env') as (rest & Hr & Hn).
      destruct (run_blocks (S i) others env') as [[t' env''] a]. cbn [fst snd] in *.
      exists rest. split; [|exact Hn].
      rewrite block_indices_app, Hb.
      destruct (truthy (strip block)); cbn [app]; rewrite Hr; reflexivity.
Qed.

Lemma run_probe_names func_name test_call env :
  probe_names (fst (fst (run_probe func_name test_call env))) =
  match snd (run_probe func_name test_call env) with
  | Some _ => []
  | None => [func_name]
  end.
Proof.
  unfold run_probe. destruct (env !! func_name); [|reflexivity].
  destruct (py_eval test_call env) as [env' [r|r r0|e|r0|status|]]; try reflexivity;
      raised_cases r0; reflexivity.
Qed.

Lemma run_probes_names probes env :
  exists rest,
    map fst probes = probe_names (fst (fst (run_probes probes env))) ++ rest /\
    (snd (run_probes probes env) = None -> rest = []).
Proof.
  revert env. induction probes as [|[func_name test_call] others IH]; intros env.
  - exists []. split; reflexivity.
  - cbn [run_probes map fst].
    pose proof (run_probe_names func_name test_call env) as Hb.
    destruct (run_probe func_name test_call env) as [[t env'] [a|]]; cbn [fst snd] in *.
    + rewrite Hb. eexists. split; [reflexivity | discriminate].
    + destruct (IH env') as (rest & Hr & Hn).
      destruct (run_probes others env') as [[t' env''] a]. cbn [fst snd] in *.
      exists rest. split; [|exact Hn].
      rewrite probe_names_app, Hb. cbn [app]. rewrite Hr. reflexivity.
Qed.

End Reports.

(** X6.  Each non-blank block is reported exactly once (SKIPPED, EXECUTED
    or ERROR), under the number [enumerate(blocks, 1)] gave it, and in
    document order; blank blocks get no line but keep their number.  When
    a block stops the run, the numbers reported so far are an initial part
    of that list. *)
Theorem blocks_reported_once {I : Interpreter}
    (i : nat) (blocks : list text) (env : gmap text value) :
  (exists rest,
     nonblank_positions i blocks =
       block_indices (fst (fst (run_blocks i blocks env))) ++ rest) /\
  (snd (run_blocks i blocks env) = None ->
   block_indices (fst (fst (run_blocks i blocks env))) = nonblank_positions i blocks).
Proof.
  destruct (run_blocks_indices i blocks env) as (rest & Hr & Hn). split.
  - exists rest. exact Hr.
  - intros H. rewrite Hr, (Hn H), app_nil_r. reflexivity.
Qed.

Lemma blocks_reported_once_witness :
  block_indices (fst (fst (run_blocks (I := Sample.python) 1 [str "
f()
"; str "
"; str "
f = int  # mp.Pool(
"; str "
f = int
"] ∅))) = [1; 3; 4].
Proof.
  apply (proj2 (blocks_reported_once (I := Sample.python) 1 [str "
f()
"; str "
"; str "
f = int  # mp.Pool(
"; str "
f = int
"] ∅)). reflexivity.
Defined.

(** X7.  Every entry of the probe table gets exactly one line (OK, ERROR or
    NOT FOUND), in the order of the table, whatever the blocks defined;
    when an invocation stops the run, the names reported so far are an
    initial part of the table. *)
Theorem probes_reported_in_order {I : Interpreter}
    (probes : list (text * text)) (env : gmap text value) :
  (exists rest,
     map fst probes = probe_names (fst (fst (run_probes probes env))) ++ rest) /\
  (snd (run_probes probes env) = None ->
   probe_names (fst (fst (run_probes probes env))) = map fst probes).
Proof.
  destruct (run_probes_names probes env) as (rest & Hr & Hn). split.
  - exists rest. exact Hr.
  - intros H. rewrite Hr, (Hn H), app_nil_r. reflexivity.
Qed.

Lemma probes_reported_in_order_witness :
  probe_names (fst (fst (run_probes (I := Sample.python) test_functions
    (<[str "square_number" := Sample.Callable (str "square_number")]> ∅)))) =
  map fst test_functions.
Proof.
  apply (proj2 (probes_reported_in_order (I := Sample.python) test_functions
    (<[str "square_number" := Sample.Callable (str "square_number")]> ∅))).
  vm_compute. reflexivity.
Defined.

(** ** The syntax validator on a chapter that passes *)

Lemma check_blocks_all {I : Interpreter} i blocks :
  forallb (fun b => negb (truthy (strip b)) || parses (strip b)) blocks = true ->
  snd (check_blocks i blocks) = true /\
  parsed (fst (check_blocks i blocks)) =
    map strip (List.filter (fun b => truthy (strip b)) blocks) /\
  printed (fst (check_blocks i blocks)) =
    map Block_ok (nonblank_positions i blocks) ++ [All_passed].
Proof.
  revert i. induction blocks as [|block rest IH]; intros i H; [repeat split|].
  cbn [forallb] in H. apply andb_prop in H as [Hb Hrest].
  specialize (IH (S i) Hrest). destruct IH as (Hok & Hp & Hl).
  cbn [check_blocks List.filter nonblank_positions].
  destruct (truthy (strip block)); [|repeat split; assumption].
  unfold parses in Hb. cbn [negb orb] in Hb.
  destruct (ast_parse (strip block)); [|discriminate..].
  destruct (check_blocks (S i) rest) as [t ok]. cbn [fst snd] in *.
  split; [exact Hok|]. split.
  - cbn [parsed map]. rewrite Hp. reflexivity.
  - cbn [printed map app]. rewrite Hl. reflexivity.
Qed.

(** X8.  When every non-blank block parses, the syntax validator returns
    success after parsing each non-blank block exactly once, trimmed and in
    document order; it prints the number of blocks found (blank ones
    included), one OK line per non-blank block under its own number, and
    the closing line. *)
Theorem syntax_pass_trace {I : Interpreter} (content : text) :
  forallb (fun b => negb (truthy (strip b)) || parses (strip b))
          (findall content) = true ->
  snd (test_multiprocessing_syntax (Readable content)) = true /\
  parsed (fst (test_multiprocessing_syntax (Readable content))) =
    map strip (List.filter (fun b => truthy (strip b)) (findall content)) /\
  printed (fst (test_multiprocessing_syntax (Readable content))) =
    Testing_syntax :: Found (length (findall content)) ::
    map Block_ok (nonblank_positions 1 (findall content)) ++ [All_passed].
Proof.
  intros H. destruct (check_blocks_all 1 (findall content) H) as (Hok & Hp & Hl).
  unfold test_multiprocessing_syntax.
  destruct (check_blocks 1 (findall content)) as [t ok]. cbn [fst snd] in *.
  split; [exact Hok|]. split.
  - cbn [parsed]. exact Hp.
  - cbn [printed]. rewrite Hl. reflexivity.
Qed.

Lemma syntax_pass_trace_witness :
  printed (fst (test_multiprocessing_syntax (I := Sample.python) (Readable (str "
```{python}
f = int
```
```{python}

```
```{python}
f()
```
")))) =
    Testing_syntax :: Found (length (findall (str "
```{python}
f = int
```
```{python}

```
```{python}
f()
```
"))) ::
    map Block_ok (nonblank_positions 1 (findall (str "
```{python}
f = int
```
```{python}

```
```{python}
f()
```
"))) ++ [All_passed].
Proof.
  apply (syntax_pass_trace (I := Sample.python)). vm_compute. reflexivity.
Defined.

Lemma check_blocks_trimmed {I : Interpreter} i blocks :
  Forall (fun src => truthy src = true /\ strip src = src)
         (parsed (fst (check_blocks i blocks))).
Proof.
  revert i. induction blocks as [|block rest IH]; intros i; [constructor|].
  cbn [check_blocks]. destruct (truthy (strip block)) eqn:Hn; [|apply IH].
  destruct (ast_parse (strip block)).
  - specialize (IH (S i)). destruct (check_blocks (S i) rest) as [t ok].
    cbn [fst parsed] in *. constructor; [|exact IH].
    split; [exact Hn | apply strip_idempotent].
  - cbn [fst parsed]. constructor; [|constructor].
    split; [exact Hn | apply strip_idempotent].
  - cbn [fst parsed]. constructor; [|constructor].
    split; [exact Hn | apply strip_idempotent].
Qed.

(** X9.  The parser is never given an empty text or one with whitespace
    around it: every text handed to [ast.parse] is non-empty and is its own
    trimmed form. *)
Theorem parsed_texts_trimmed {I : Interpreter} (file : source) :
  Forall (fun src => truthy src = true /\ strip src = src)
         (parsed (fst (test_multiprocessing_syntax file))).
Proof.
  destruct file as [content|e]; [|constructor].
  unfold test_multiprocessing_syntax.
  pose proof (check_blocks_trimmed 1 (findall content)) as H.
  destruct (check_blocks 1 (findall content)) as [t ok]. exact H.
Qed.

(** ** Blank blocks *)

Lemma strip_blank_iff s : truthy (strip s) = false <-> forallb isspace s = true.
Proof.
  split.
  - intros H. destruct (strip s) eqn:E; [clear H | discriminate].
    unfold strip in E.
    destruct (lstrip_suffix s) as (w1 & H1 & Hw1).
    destruct (rstrip_prefix (lstrip s)) as (w2 & H2 & Hw2).
    rewrite E in H2. cbn [app] in H2. rewrite H1, H2, forallb_app, Hw1.
    rewrite <- H2. rewrite H2 at 1. exact Hw2.
  - intros H. unfold strip. rewrite (lstrip_blank s H). reflexivity.
Qed.

(** X10.  A block is blank for the validators exactly when all its
    characters are whitespace.  Such a block leaves no trace in either
    script: no line, no parse, no execution, the environment untouched; only
    the numbering of the blocks after it moves on. *)
Theorem blank_block_silent {I : Interpreter} (block : text) :
  (truthy (strip block) = false <-> forallb isspace block = true) /\
  (forallb isspace block = true ->
   forall i rest env,
     check_blocks i (block :: rest) = check_blocks (S i) rest /\
     run_blocks i (block :: rest) env = run_blocks (S i) rest env).
Proof.
  split; [apply strip_blank_iff|].
  intros H i rest env. apply strip_blank_iff in H. split.
  - apply check_blocks_blank, H.
  - cbn [run_blocks]. unfold run_block. rewrite H. cbn [negb].
    destruct (run_blocks (S i) rest env) as [[t env'] a]. reflexivity.
Qed.

Lemma blank_block_silent_witness :
  run_blocks (I := Sample.python) 1 [str "

	 "; str "
f()
"] ∅ = run_blocks (I := Sample.python) 2 [str "
f()
"] ∅.
Proof.
  apply (proj2 (blank_block_silent (I := Sample.python) (str "

	 ")) eq_refl 1 [str "
f()
"] ∅).
Defined.

(** * The example modules *)

(** ** [control_flow_examples.py] *)

Lemma mod_zero_divide (i d : Z) : (0 < d)%Z -> ((i mod d = 0)%Z <-> (d | i)%Z).
Proof. intros H. apply Z.mod_divide. lia. Qed.

Lemma mod_15 (i : Z) : (i mod 15 = 0 <-> i mod 3 = 0 /\ i mod 5 = 0)%Z.
Proof. Z.div_mod_to_equations. lia. Qed.

(** X11.  [fizzbuzz_demo] prints FizzBuzz for exactly the multiples of both
    3 and 5, Fizz for the other multiples of 3, Buzz for the other multiples
    of 5, and the number itself for every other number: testing 15 first is
    what makes the three tests exclusive. *)
Theorem fizzbuzz_line_divisibility (i : Z) :
  (ControlFlow.fizzbuzz_line i = ControlFlow.FizzBuzz <-> (3 | i)%Z /\ (5 | i)%Z) /\
  (ControlFlow.fizzbuzz_line i = ControlFlow.Fizz <-> (3 | i)%Z /\ ~ (5 | i)%Z) /\
  (ControlFlow.fizzbuzz_line i = ControlFlow.Buzz <-> ~ (3 | i)%Z /\ (5 | i)%Z) /\
  (ControlFlow.fizzbuzz_line i = ControlFlow.Number i <-> ~ (3 | i)%Z /\ ~ (5 | i)%Z).
Proof.
  rewrite <- !(mod_zero_divide i 3), <- !(mod_zero_divide i 5) by lia.
  unfold ControlFlow.fizzbuzz_line. pose proof (mod_15 i) as H15.
  destruct (Z.eqb_spec (i mod 15) 0) as [E15|E15];
    destruct (Z.eqb_spec (i mod 3) 0) as [E3|E3];
    destruct (Z.eqb_spec (i mod 5) 0) as [E5|E5];
    repeat split; try discriminate; try tauto; intros; try tauto.
Qed.

Lemma classify_fold numbers positive negative zeros :
  fold_left ControlFlow.classify_step numbers (positive, negative, zeros) =
  (positive ++ List.filter (fun n => (n >? 0)%Z) numbers,
   negative ++ List.filter (fun n => (n <? 0)%Z) numbers,
   zeros ++ List.filter (fun n => (n =? 0)%Z) numbers).
Proof.
  revert positive negative zeros.
  induction numbers as [|num rest IH]; intros positive negative zeros.
  - cbn. rewrite !app_nil_r. reflexivity.
  - cbn [fold_left List.filter ControlFlow.classify_step].
    destruct (Z.gtb_spec num 0); [|destruct (Z.ltb_spec num 0)];
      rewrite IH; destruct (Z.ltb_spec num 0); destruct (Z.eqb_spec num 0);
      try lia; rewrite <- ?app_assoc; reflexivity.
Qed.

Lemma sign_partition (numbers : list Z) :
  Permutation
    (List.filter (fun n => (n >? 0)%Z) numbers ++
     List.filter (fun n => (n <? 0)%Z) numbers ++
     List.filter (fun n => (n =? 0)%Z) numbers)
    numbers.
Proof.
  induction numbers as [|num rest IH]; [constructor|].
  cbn [List.filter].
  destruct (Z.gtb_spec num 0); destruct (Z.ltb_spec num 0);
    destruct (Z.eqb_spec num 0); try lia.
  - cbn [app]. constructor. exact IH.
  - etransitivity; [|constructor; exact IH].
    symmetry. apply Permutation_middle.
  - etransitivity; [|constructor; exact IH].
    rewrite !app_assoc. symmetry. apply Permutation_middle.
Qed.

(** X12.  The loop of [number_classifier] splits a list by sign without
    losing, repeating or reordering anything: each of the three lists is the
    input filtered by its test, in the input's order, and together they hold
    the input's numbers exactly. *)
Theorem classify_partitions (numbers : list Z) :
  ControlFlow.classify numbers =
    (List.filter (fun n => (n >? 0)%Z) numbers,
     List.filter (fun n => (n <? 0)%Z) numbers,
     List.filter (fun n => (n =? 0)%Z) numbers) /\
  Permutation
    (fst (fst (ControlFlow.classify numbers)) ++
     snd (fst (ControlFlow.classify numbers)) ++
     snd (ControlFlow.classify numbers))
    numbers.
Proof.
  unfold ControlFlow.classify. rewrite classify_fold. cbn [app fst snd].
  split; [reflexivity | apply sign_partition].
Qed.

Lemma is_prime_iff (root : nat -> nat) (n : nat) :
  root n * root n <= n < (root n + 1) * (root n + 1) ->
  (ControlFlow.is_prime root n = true <->
   2 <= n /\ forall d, 2 <= d < n -> n mod d <> 0).
Proof.
  intros [Hlo Hhi]. unfold ControlFlow.is_prime.
  destruct (Nat.ltb_spec n 2) as [Hn|Hn].
  - split; [discriminate | intros [H _]; lia].
  - rewrite forallb_forall. split.
    + intros H. split; [exact Hn|]. intros d Hd Hm.
      assert (Hde : n = d * (n / d)) by (apply Nat.Div0.div_exact; exact Hm).
      set (e := n / d) in *.
      assert (He : 2 <= e) by nia.
      assert (Hsmall : d <= root n \/ e <= root n) by nia.
      destruct Hsmall as [Hs|Hs].
      * specialize (H d). rewrite Hm in H. cbn in H.
        assert (In d (seq 2 (root n + 1 - 2))) by (apply in_seq; lia).
        specialize (H H0). discriminate.
      * assert (Hme : n mod e = 0).
        { rewrite Hde at 1. apply Nat.Div0.mod_mul. }
        specialize (H e). rewrite Hme in H. cbn in H.
        assert (In e (seq 2 (root n + 1 - 2))) by (apply in_seq; lia).
        specialize (H H0). discriminate.
    + intros [_ H] i Hi. apply in_seq in Hi.
      assert (Hr : root n < n) by nia.
      apply negb_true_iff, Nat.eqb_neq, H. lia.
Qed.

(** X13.  Where the floating-point bound [int(n**0.5)] is the integer
    square root of [n], [is_prime] answers True exactly for the primes: the
    numbers from 2 on with no divisor between 2 and themselves.  Numbers
    below 2 are never prime. *)
Theorem is_prime_correct (root : nat -> nat) (n : nat) :
  root n * root n <= n < (root n + 1) * (root n + 1) ->
  (ControlFlow.is_prime root n = true <->
   2 <= n /\ forall d, 2 <= d < n -> n mod d <> 0) /\
  (n < 2 -> ControlFlow.is_prime root n = false).
Proof.
  intros H. split; [apply is_prime_iff, H|].
  intros Hn. unfold ControlFlow.is_prime.
  destruct (Nat.ltb_spec n 2); [reflexivity | lia].
Qed.

Lemma is_prime_correct_witness :
  ControlFlow.is_prime Nat.sqrt 29 = true <->
  2 <= 29 /\ forall d, 2 <= d < 29 -> 29 mod d <> 0.
Proof.
  apply (is_prime_correct Nat.sqrt 29). cbn. lia.
Defined.

(** X14.  The list [prime_checker] prints holds exactly the primes from 2 up
    to the limit, each once, where the floating-point bound is the integer
    square root on that range. *)
Theorem primes_up_to_correct (root : nat -> nat) (limit : nat) :
  (forall n, n <= limit ->
     root n * root n <= n < (root n + 1) * (root n + 1)) ->
  (forall p,
     In p (ControlFlow.primes_up_to root limit) <->
     2 <= p <= limit /\ forall d, 2 <= d < p -> p mod d <> 0) /\
  List.NoDup (ControlFlow.primes_up_to root limit).
Proof.
  intros Hroot. split.
  - intros p. unfold ControlFlow.primes_up_to. rewrite filter_In, in_seq. split.
    + intros [Hr Hp]. apply is_prime_iff in Hp as [_ Hp]; [|apply Hroot; lia].
      split; [lia | exact Hp].
    + intros [Hr Hp]. split; [lia|].
      apply is_prime_iff; [apply Hroot; lia|]. split; [lia | exact Hp].
  - apply List.NoDup_filter, seq_NoDup.
Qed.

Lemma primes_up_to_correct_witness :
  In 29 (ControlFlow.primes_up_to Nat.sqrt 30) <->
  2 <= 29 <= 30 /\ forall d, 2 <= d < 29 -> 29 mod d <> 0.
Proof.
  apply (proj1 (primes_up_to_correct Nat.sqrt 30
    (fun n _ => ltac:(pose proof (Nat.sqrt_spec n (Nat.le_0_l n)) as H;
                      cbn zeta in H;
                      replace (Nat.sqrt n + 1) with (S (Nat.sqrt n)) by lia;
                      exact H))) 29).
Defined.

Example primes_up_to_30 :
  ControlFlow.primes_up_to Nat.sqrt 30 = [2; 3; 5; 7; 11; 13; 17; 19; 23; 29].
Proof. reflexivity. Qed.

Section PasswordFacts.
Variables isupper islower isdigit : N -> bool.

(** The class the [elif] chain of the loop puts a character in. *)
Let upper (c : N) : bool := isupper c.
Let lower (c : N) : bool := negb (isupper c) && islower c.
Let digit (c : N) : bool := negb (isupper c) && negb (islower c) && isdigit c.
Let special (c : N) : bool :=
  negb (isupper c) && negb (islower c) && negb (isdigit c) &&
  contains [c] ControlFlow.special_chars.

Lemma scan_fold password f :
  fold_left (ControlFlow.scan_char isupper islower isdigit) password f =
  {| ControlFlow.has_upper := ControlFlow.has_upper f || existsb upper password;
     ControlFlow.has_lower := ControlFlow.has_lower f || existsb lower password;
     ControlFlow.has_digit := ControlFlow.has_digit f || existsb digit password;
     ControlFlow.has_special := ControlFlow.has_special f || existsb special password |}.
Proof.
  revert f. induction password as [|c rest IH]; intros f.
  - cbn. rewrite !orb_false_r. destruct f; reflexivity.
  - cbn [fold_left existsb]. rewrite IH.
    unfold ControlFlow.scan_char, upper, lower, digit, special.
    destruct f as [u l d s].
    destruct (isupper c), (islower c), (isdigit c),
      (contains [c] ControlFlow.special_chars);
      cbn [ControlFlow.has_upper ControlFlow.has_lower ControlFlow.has_digit
           ControlFlow.has_special negb andb orb];
      rewrite ?orb_true_r; reflexivity.
Qed.

Lemma scan_exists password :
  ControlFlow.scan isupper islower isdigit password =
  {| ControlFlow.has_upper := existsb upper password;
     ControlFlow.has_lower := existsb lower password;
     ControlFlow.has_digit := existsb digit password;
     ControlFlow.has_special := existsb special password |}.
Proof. unfold ControlFlow.scan. rewrite scan_fold. reflexivity. Qed.

Lemma requirements_nil f :
  ControlFlow.requirements f = [] <->
  ControlFlow.has_upper f = true /\ ControlFlow.has_lower f = true /\
  ControlFlow.has_digit f = true /\ ControlFlow.has_special f = true.
Proof.
  unfold ControlFlow.requirements. destruct f as [[] [] [] []]; cbn;
    split; try discriminate; try tauto; intros (? & ? & ? & ?); discriminate.
Qed.

Lemma existsb_permutation (f : N -> bool) (p q : text) :
  Permutation p q -> existsb f p = existsb f q.
Proof.
  intros H. apply bool_eq_iff. rewrite !existsb_exists.
  split; intros (c & Hin & Hc); exists c; (split; [|exact Hc]).
  - apply (Permutation_in _ H), Hin.
  - apply (Permutation_in _ (Permutation_sym H)), Hin.
Qed.

Lemma validate_password_cases password :
  ControlFlow.validate_password isupper islower isdigit password =
  if length password <? 8 then
    (false, str "Password must be at least 8 characters")
  else if existsb upper password && existsb lower password &&
          existsb digit password && existsb special password
  then (true, str "Strong password!")
  else (false,
        str "Missing: " ++
        ControlFlow.join (str ", ")
          (ControlFlow.requirements
             (ControlFlow.scan isupper islower isdigit password))).
Proof.
  unfold ControlFlow.validate_password.
  destruct (length password <? 8); [reflexivity|].
  pose proof (requirements_nil (ControlFlow.scan isupper islower isdigit password)) as H.
  rewrite scan_exists in H |- *.
  cbn [ControlFlow.has_upper ControlFlow.has_lower ControlFlow.has_digit
       ControlFlow.has_special] in H.
  destruct (ControlFlow.requirements _) as [|m ms].
  - destruct H as [H _]. destruct (H eq_refl) as (-> & -> & -> & ->). reflexivity.
  - destruct (existsb upper password), (existsb lower password),
      (existsb digit password), (existsb special password); try reflexivity.
    destruct H as [_ H]. discriminate H. repeat split.
Qed.

Lemma validate_password_accepts_iff password :
  fst (ControlFlow.validate_password isupper islower isdigit password) = true <->
  8 <= length password /\
  existsb upper password = true /\ existsb lower password = true /\
  existsb digit password = true /\ existsb special password = true.
Proof.
  rewrite validate_password_cases.
  destruct (Nat.ltb_spec (length password) 8) as [Hl|Hl].
  - split; [discriminate | intros [H _]; lia].
  - destruct (existsb upper password), (existsb lower password),
      (existsb digit password), (existsb special password); cbn;
      split; try discriminate; try tauto; intros (? & ? & ? & ? & ?); discriminate.
Qed.

Lemma scan_permutation p q :
  Permutation p q ->
  ControlFlow.scan isupper islower isdigit p = ControlFlow.scan isupper islower isdigit q.
Proof.
  intros H. rewrite !scan_exists.
  rewrite (existsb_permutation upper p q H), (existsb_permutation lower p q H),
    (existsb_permutation digit p q H), (existsb_permutation special p q H).
  reflexivity.
Qed.

End PasswordFacts.

(** X15.  [validate_password] accepts a password exactly when it has at
    least 8 characters and holds an uppercase character, a lowercase one, a
    digit and one of the special characters, each counted in the first class
    of that order it belongs to.  A shorter password is refused with the
    length message whatever it holds, and an accepted one gets the
    strong-password message. *)
Theorem validate_password_accepts (isupper islower isdigit : N -> bool) (password : text) :
  (fst (ControlFlow.validate_password isupper islower isdigit password) = true <->
   8 <= length password /\
   existsb isupper password = true /\
   existsb (fun c => negb (isupper c) && islower c) password = true /\
   existsb (fun c => negb (isupper c) && negb (islower c) && isdigit c) password = true /\
   existsb (fun c => negb (isupper c) && negb (islower c) && negb (isdigit c) &&
                     contains [c] ControlFlow.special_chars) password = true) /\
  (length password < 8 ->
   ControlFlow.validate_password isupper islower isdigit password =
     (false, str "Password must be at least 8 characters")) /\
  (fst (ControlFlow.validate_password isupper islower isdigit password) = true ->
   snd (ControlFlow.validate_password isupper islower isdigit password) =
     str "Strong password!").
Proof.
  split; [apply validate_password_accepts_iff|]. split.
  - intros H. unfold ControlFlow.validate_password.
    destruct (Nat.ltb_spec (length password) 8); [reflexivity | lia].
  - rewrite validate_password_cases.
    destruct (length password <? 8); [discriminate|].
    destruct (_ && _); [reflexivity | discriminate].
Qed.

Lemma validate_password_accepts_witness :
  ControlFlow.validate_password
    (fun c => (65 <=? c) && (c <=? 90))%N
    (fun c => (97 <=? c) && (c <=? 122))%N
    (fun c => (48 <=? c) && (c <=? 57))%N
    (str "short") = (false, str "Password must be at least 8 characters").
Proof.
  apply (proj1 (proj2 (validate_password_accepts
    (fun c => (65 <=? c) && (c <=? 90))%N
    (fun c => (97 <=? c) && (c <=? 122))%N
    (fun c => (48 <=? c) && (c <=? 57))%N
    (str "short")))).
  cbn. lia.
Defined.

(** X16.  The verdict of [validate_password] and its message depend only on
    which characters the password holds, not on their order: a rearranged
    password gets the same answer. *)
Theorem validate_password_permutation
    (isupper islower isdigit : N -> bool) (p q : text) :
  Permutation p q ->
  ControlFlow.validate_password isupper islower isdigit p =
  ControlFlow.validate_password isupper islower isdigit q.
Proof.
  intros H. unfold ControlFlow.validate_password.
  rewrite (Permutation_length H), (scan_permutation isupper islower isdigit p q H).
  reflexivity.
Qed.

Lemma validate_password_permutation_witness :
  ControlFlow.validate_password
    (fun c => (65 <=? c) && (c <=? 90))%N
    (fun c => (97 <=? c) && (c <=? 122))%N
    (fun c => (48 <=? c) && (c <=? 57))%N
    (str "ab") =
  ControlFlow.validate_password
    (fun c => (65 <=? c) && (c <=? 90))%N
    (fun c => (97 <=? c) && (c <=? 122))%N
    (fun c => (48 <=? c) && (c <=? 57))%N
    (str "ba").
Proof.
  apply validate_password_permutation. apply perm_swap.
Defined.

Example validate_password_examples :
  map (ControlFlow.validate_password
         (fun c => (65 <=? c) && (c <=? 90))%N
         (fun c => (97 <=? c) && (c <=? 122))%N
         (fun c => (48 <=? c) && (c <=? 57))%N)
      [str "weak"; str "StrongPass1!"; str "NoSpecial123"; str "short"] =
  [(false, str "Password must be at least 8 characters");
   (true, str "Strong password!");
   (false, str "Missing: special character");
   (false, str "Password must be at least 8 characters")].
Proof. reflexivity. Qed.

(** ** [oop_examples.py]: the bank account *)

Lemma perform_balance (a : Bank.account) (c : Bank.call) :
  (0 <= Bank.balance a)%Z -> (0 <= Bank.balance (Bank.perform a c))%Z.
Proof.
  intros H. destruct c as [amount now|amount now]; cbn [Bank.perform].
  - unfold Bank.deposit. destruct (Z.gtb_spec amount 0); cbn; lia.
  - unfold Bank.withdraw.
    destruct (Z.gtb_spec amount 0); destruct (Z.leb_spec amount (Bank.balance a));
      cbn; lia.
Qed.

(** X17.  An account that is not overdrawn never becomes overdrawn: after
    any deposits and withdrawals, accepted or refused, the balance is still
    at least 0.  A withdrawal of more than the balance is refused and leaves
    the account exactly as it was. *)
Theorem balance_never_negative (a : Bank.account) (calls : list Bank.call) :
  (0 <= Bank.balance a)%Z ->
  (0 <= Bank.balance (Bank.perform_all a calls))%Z /\
  (forall amount now,
     (Bank.balance a < amount)%Z ->
     Bank.withdraw a amount now = (a, Bank.Withdrawal_rejected)).
Proof.
  intros H. split.
  - unfold Bank.perform_all. revert a H.
    induction calls as [|c rest IH]; intros a H; [exact H|].
    cbn [fold_left]. apply IH, perform_balance, H.
  - intros amount now Hlt. unfold Bank.withdraw.
    destruct (Z.leb_spec amount (Bank.balance a)); [lia|].
    rewrite andb_false_r. reflexivity.
Qed.

Lemma balance_never_negative_witness :
  (0 <= Bank.balance
          (Bank.perform_all (Bank.init (str "Alice Johnson") 1000 12345)
             [Bank.Deposit 200 1; Bank.Withdraw 150 2; Bank.Withdraw 5000 3]))%Z.
Proof.
  apply (balance_never_negative (Bank.init (str "Alice Johnson") 1000 12345)
           [Bank.Deposit 200 1; Bank.Withdraw 150 2; Bank.Withdraw 5000 3]).
  cbn. lia.
Defined.

Lemma history_total_snoc h t :
  Bank.history_total (h ++ [t]) = (Bank.history_total h + Bank.effect t)%Z.
Proof.
  unfold Bank.history_total. induction h as [|t' h IH]; cbn [app map fold_right] in *; [lia|].
  rewrite IH. lia.
Qed.

Lemma effect_deposit amount now b :
  Bank.effect {| Bank.transaction_type := str "Deposit"; Bank.amount := amount;
                 Bank.timestamp := now; Bank.recorded_balance := b |} = amount.
Proof.
  unfold Bank.effect. cbn [Bank.transaction_type Bank.amount].
  destruct (decide (str "Deposit" = str "Deposit")); [reflexivity | congruence].
Qed.

Lemma effect_withdrawal amount now b :
  Bank.effect {| Bank.transaction_type := str "Withdrawal"; Bank.amount := amount;
                 Bank.timestamp := now; Bank.recorded_balance := b |} = (- amount)%Z.
Proof.
  unfold Bank.effect. cbn [Bank.transaction_type Bank.amount].
  destruct (decide (str "Withdrawal" = str "Deposit")) as [E|_]; [|reflexivity].
  vm_compute in E. discriminate.
Qed.

(** What stays true of an account opened with [initial] as its balance. *)
Lemma perform_books (initial : Z) (a : Bank.account) (c : Bank.call) :
  Bank.balance a = (initial + Bank.history_total (Bank.transaction_history a))%Z /\
  Forall (fun t => (0 < Bank.amount t)%Z) (Bank.transaction_history a) /\
  match last (Bank.transaction_history a) with
  | None => Bank.balance a = initial
  | Some t => Bank.recorded_balance t = Bank.balance a
  end ->
  Bank.balance (Bank.perform a c) =
    (initial + Bank.history_total (Bank.transaction_history (Bank.perform a c)))%Z /\
  Forall (fun t => (0 < Bank.amount t)%Z) (Bank.transaction_history (Bank.perform a c)) /\
  match last (Bank.transaction_history (Bank.perform a c)) with
  | None => Bank.balance (Bank.perform a c) = initial
  | Some t => Bank.recorded_balance t = Bank.balance (Bank.perform a c)
  end.
Proof.
  intros (Hb & Hp & Hl).
  destruct c as [amount now|amount now]; cbn [Bank.perform].
  - unfold Bank.deposit. destruct (Z.gtb_spec amount 0); [|repeat split; assumption].
    cbn [fst Bank.add_transaction Bank.set_balance Bank.transaction_history Bank.balance].
    rewrite history_total_snoc, effect_deposit, last_snoc. repeat split.
    + lia.
    + apply Forall_app. split; [exact Hp|]. constructor; [cbn; lia | constructor].
  - unfold Bank.withdraw.
    destruct (Z.gtb_spec amount 0); destruct (Z.leb_spec amount (Bank.balance a));
      cbn [andb]; try (repeat split; assumption).
    cbn [fst Bank.add_transaction Bank.set_balance Bank.transaction_history Bank.balance].
    rewrite history_total_snoc, effect_withdrawal, last_snoc. repeat split.
    + lia.
    + apply Forall_app. split; [exact Hp|]. constructor; [cbn; lia | constructor].
Qed.

Lemma perform_identity (a : Bank.account) (c : Bank.call) :
  Bank.account_holder (Bank.perform a c) = Bank.account_holder a /\
  Bank.account_number (Bank.perform a c) = Bank.account_number a /\
  length (Bank.transaction_history (Bank.perform a c)) <=
    S (length (Bank.transaction_history a)).
Proof.
  destruct c as [amount now|amount now]; cbn [Bank.perform].
  - unfold Bank.deposit. destruct (amount >? 0)%Z; cbn; rewrite ?length_app; cbn;
      repeat split; lia.
  - unfold Bank.withdraw. destruct ((amount >? 0)%Z && (amount <=? Bank.balance a)%Z);
      cbn; rewrite ?length_app; cbn; repeat split; lia.
Qed.

(** X18.  The books of an account always balance.  After any calls on a
    newly opened account, the balance is the opening balance plus the
    deposits and minus the withdrawals recorded in the history; every
    recorded amount is positive; the balance written in the latest entry is
    the current balance; there are no more entries than calls; and holder and
    account number are the ones the account was opened with. *)
Theorem history_accounts_for_balance
    (holder : text) (initial : Z) (drawn : N) (calls : list Bank.call) :
  Bank.balance (Bank.perform_all (Bank.init holder initial drawn) calls) =
    (initial +
     Bank.history_total
       (Bank.transaction_history
          (Bank.perform_all (Bank.init holder initial drawn) calls)))%Z /\
  Forall (fun t => (0 < Bank.amount t)%Z)
    (Bank.transaction_history
       (Bank.perform_all (Bank.init holder initial drawn) calls)) /\
  match last (Bank.transaction_history
                (Bank.perform_all (Bank.init holder initial drawn) calls)) with
  | None => Bank.balance (Bank.perform_all (Bank.init holder initial drawn) calls) = initial
  | Some t =>
      Bank.recorded_balance t =
      Bank.balance (Bank.perform_all (Bank.init holder initial drawn) calls)
  end /\
  length (Bank.transaction_history
            (Bank.perform_all (Bank.init holder initial drawn) calls)) <= length calls /\
  Bank.account_holder (Bank.perform_all (Bank.init holder initial drawn) calls) = holder /\
  Bank.account_number (Bank.perform_all (Bank.init holder initial drawn) calls) = drawn.
Proof.
  unfold Bank.perform_all.
  induction calls as [|c calls IH] using rev_ind.
  - cbn. repeat split; try lia. constructor.
  - rewrite fold_left_app. cbn [fold_left].
    set (a := fold_left Bank.perform calls (Bank.init holder initial drawn)) in *.
    destruct IH as (Hb & Hp & Hl & Hn & Hh & Hd).
    destruct (perform_books initial a c (conj Hb (conj Hp Hl))) as (Hb' & Hp' & Hl').
    destruct (perform_identity a c) as (Hh' & Hd' & Hn').
    repeat split; try assumption; try congruence.
    rewrite length_app. cbn. lia.
Qed.

(** X19.  A deposit followed by a withdrawal of the same amount gives the
    money back: on an account that is not overdrawn, both calls are
    accepted, the balance is what it was, and the history has grown by the
    two entries, the earlier ones untouched.  Each call prints its line
    with the amount and the new balance when both can be made a [float];
    otherwise it raises [OverflowError] in place of the line, the account
    being changed all the same.  Below [2 ** 1000] both lines are
    printed. *)
Theorem deposit_withdraw_round_trip (a : Bank.account) (amount t1 t2 : Z) :
  (0 <= Bank.balance a)%Z -> (0 < amount)%Z ->
  snd (Bank.deposit a amount t1) =
    (if fits_float amount && fits_float (Bank.balance a + amount)
     then Bank.Deposited amount (Bank.balance a + amount)
     else Bank.Overflow_error) /\
  snd (Bank.withdraw (fst (Bank.deposit a amount t1)) amount t2) =
    (if fits_float amount && fits_float (Bank.balance a)
     then Bank.Withdrew amount (Bank.balance a)
     else Bank.Overflow_error) /\
  ((Bank.balance a + amount < 2 ^ 1000)%Z ->
   snd (Bank.deposit a amount t1) =
     Bank.Deposited amount (Bank.balance a + amount) /\
   snd (Bank.withdraw (fst (Bank.deposit a amount t1)) amount t2) =
     Bank.Withdrew amount (Bank.balance a)) /\
  Bank.balance (fst (Bank.withdraw (fst (Bank.deposit a amount t1)) amount t2)) =
    Bank.balance a /\
  Bank.transaction_history
    (fst (Bank.withdraw (fst (Bank.deposit a amount t1)) amount t2)) =
    Bank.transaction_history a ++
    [{| Bank.transaction_type := str "Deposit"; Bank.amount := amount;
        Bank.timestamp := t1; Bank.recorded_balance := (Bank.balance a + amount)%Z |};
     {| Bank.transaction_type := str "Withdrawal"; Bank.amount := amount;
        Bank.timestamp := t2; Bank.recorded_balance := Bank.balance a |}].
Proof.
  intros Hb Ha.
  assert (Hfit : forall n, (0 <= n < 2 ^ 1000)%Z -> fits_float n = true).
  { intros n Hn. unfold fits_float. apply Z.ltb_lt.
    assert (B : (2 ^ 1000 <= 2 ^ 1024 - 2 ^ 970)%Z)
      by (apply Z.leb_le; vm_compute; reflexivity).
    lia. }
  unfold Bank.deposit.
  destruct (Z.gtb_spec amount 0); [|lia].
  cbn [fst snd]. unfold Bank.withdraw.
  cbn [Bank.add_transaction Bank.set_balance Bank.balance Bank.transaction_history
       Bank.account_holder Bank.account_number].
  destruct (Z.gtb_spec amount 0); [|lia].
  destruct (Z.leb_spec amount (Bank.balance a + amount)); [|lia].
  cbn [andb fst snd Bank.balance Bank.transaction_history].
  replace (Bank.balance a + amount - amount)%Z with (Bank.balance a) by lia.
  split; [reflexivity|]. split; [reflexivity|]. split; [|split; [reflexivity|]].
  - intros Hs. rewrite !Hfit by lia. split; reflexivity.
  - cbn [Bank.add_transaction Bank.set_balance Bank.balance Bank.transaction_history].
    rewrite <- app_assoc. reflexivity.
Qed.

Lemma deposit_withdraw_round_trip_witness :
  Bank.balance
    (fst (Bank.withdraw
            (fst (Bank.deposit (Bank.init (str "Bob Wilson") 500 54321) 100 1))
            100 2)) =
  Bank.balance (Bank.init (str "Bob Wilson") 500 54321).
Proof.
  destruct (deposit_withdraw_round_trip
              (Bank.init (str "Bob Wilson") 500 54321) 100 1 2)
    as (_ & _ & _ & H & _); [cbn; lia | lia | exact H].
Defined.

(** X20.  [get_statement] lists the most recent transactions, five at most:
    what it lists is the end of the history, all of it when the history has
    five entries or fewer, and exactly five otherwise. *)
Theorem statement_lists_latest (a : Bank.account) :
  (exists older,
     Bank.transaction_history a = older ++ Bank.statement_transactions a) /\
  length (Bank.statement_transactions a) =
    Nat.min 5 (length (Bank.transaction_history a)) /\
  (length (Bank.transaction_history a) <= 5 ->
   Bank.statement_transactions a = Bank.transaction_history a).
Proof.
  unfold Bank.statement_transactions. repeat split.
  - exists (take (length (Bank.transaction_history a) - 5) (Bank.transaction_history a)).
    symmetry. apply take_drop.
  - rewrite length_drop. lia.
  - intros H. replace (length (Bank.transaction_history a) - 5) with 0 by lia.
    reflexivity.
Qed.

Lemma statement_lists_latest_witness :
  Bank.statement_transactions
    (Bank.perform_all (Bank.init (str "Alice Johnson") 1000 12345)
       [Bank.Deposit 200 1; Bank.Withdraw 150 2]) =
  Bank.transaction_history
    (Bank.perform_all (Bank.init (str "Alice Johnson") 1000 12345)
       [Bank.Deposit 200 1; Bank.Withdraw 150 2]).
Proof.
  apply (proj2 (proj2 (statement_lists_latest
    (Bank.perform_all (Bank.init (str "Alice Johnson") 1000 12345)
       [Bank.Deposit 200 1; Bank.Withdraw 150 2])))).
  vm_compute. lia.
Defined.

(** ** [oop_examples.py]: vectors *)

(** X21.  On vectors with integer coordinates, [+] is commutative and
    associative, [*] by an integer distributes over it, and [==] holds
    exactly between vectors with the same coordinates.  Adding anything
    that is not a vector yields [NotImplemented], and so does multiplying
    by anything that is neither an [int] nor a [float]; multiplying by a
    [float] is accepted, and fails with [OverflowError] exactly when a
    coordinate is beyond the range of [float].  A vector equals nothing
    that is not a vector. *)
Theorem vector_operations (u v w : Vector2D.vector) (n : Z) :
  Vector2D.add u (Vector2D.Vec v) = Vector2D.add v (Vector2D.Vec u) /\
  (exists uv vw s,
     Vector2D.add u (Vector2D.Vec v) = Some uv /\
     Vector2D.add v (Vector2D.Vec w) = Some vw /\
     Vector2D.add uv (Vector2D.Vec w) = Some s /\
     Vector2D.add u (Vector2D.Vec vw) = Some s) /\
  (exists uv un vn s,
     Vector2D.add u (Vector2D.Vec v) = Some uv /\
     Vector2D.mul u (Vector2D.Num n) = Vector2D.Scaled un /\
     Vector2D.mul v (Vector2D.Num n) = Vector2D.Scaled vn /\
     Vector2D.mul uv (Vector2D.Num n) = Vector2D.Scaled s /\
     Vector2D.add un (Vector2D.Vec vn) = Some s) /\
  (Vector2D.eq u (Vector2D.Vec v) = true <-> u = v) /\
  Vector2D.add u (Vector2D.Num n) = None /\
  Vector2D.add u Vector2D.Flt = None /\
  Vector2D.add u Vector2D.Other = None /\
  Vector2D.mul u (Vector2D.Vec v) = Vector2D.Not_implemented /\
  Vector2D.mul u Vector2D.Other = Vector2D.Not_implemented /\
  Vector2D.mul u Vector2D.Flt <> Vector2D.Not_implemented /\
  (Vector2D.mul u Vector2D.Flt = Vector2D.Overflow_error <->
   fits_float (Vector2D.x u) = false \/ fits_float (Vector2D.y u) = false) /\
  Vector2D.eq u (Vector2D.Num n) = false /\
  Vector2D.eq u Vector2D.Flt = false /\
  Vector2D.eq u Vector2D.Other = false.
Proof.
  destruct u as [ux uy], v as [vx vy], w as [wx wy].
  cbn [Vector2D.add Vector2D.mul Vector2D.eq Vector2D.x Vector2D.y].
  assert (E : forall a b c d : Z,
             a = c -> b = d ->
             {| Vector2D.x := a; Vector2D.y := b |} =
             {| Vector2D.x := c; Vector2D.y := d |})
    by (intros; subst; reflexivity).
  split; [f_equal; apply E; lia|].
  split; [do 3 eexists; repeat split; f_equal; apply E;
          cbn [Vector2D.x Vector2D.y]; lia|].
  split; [do 4 eexists; repeat split; f_equal; apply E;
          cbn [Vector2D.x Vector2D.y]; lia|].
  split.
  { rewrite andb_true_iff, !Z.eqb_eq. split.
    - intros [-> ->]. reflexivity.
    - intros [= -> ->]. split; reflexivity. }
  do 5 (split; [reflexivity|]).
  split; [destruct (fits_float ux && fits_float uy); discriminate|].
  split; [|repeat split].
  destruct (fits_float ux), (fits_float uy); cbn [andb]; split;
    try discriminate; try (intros [H|H]; discriminate); auto.
Qed.

(** ** What is handed to [eval] *)

Lemma run_probe_evaluated {I : Interpreter} func_name test_call env :
  evaluated (fst (fst (run_probe func_name test_call env))) =
  match env !! func_name with
  | Some _ => [test_call]
  | None => []
  end.
Proof.
  unfold run_probe. destruct (env !! func_name); [|reflexivity].
  destruct (py_eval test_call env) as [env' [r|r r0|e|r0|status|]]; try reflexivity;
    raised_cases r0; reflexivity.
Qed.

Lemma run_probes_evaluated {I : Interpreter} probes env :
  exists chosen,
    evaluated (fst (fst (run_probes probes env))) = map snd chosen /\
    sublist chosen probes.
Proof.
  revert env. induction probes as [|[func_name test_call] rest IH]; intros env.
  - exists []. split; [reflexivity | constructor].
  - cbn [run_probes].
    pose proof (run_probe_evaluated func_name test_call env) as H1.
    destruct (run_probe func_name test_call env) as [[t env'] [a|]]; cbn [fst] in *.
    + rewrite H1. destruct (env !! func_name).
      * exists [(func_name, test_call)].
        split; [reflexivity | constructor; apply sublist_nil_l].
      * exists []. split; [reflexivity | apply sublist_nil_l].
    + destruct (IH env') as (chosen & Hc & Hs).
      destruct (run_probes rest env') as [[t' env''] a]. cbn [fst] in *.
      rewrite evaluated_app, H1, Hc. destruct (env !! func_name).
      * exists ((func_name, test_call) :: chosen).
        split; [reflexivity | constructor; exact Hs].
      * exists chosen. split; [reflexivity | constructor; exact Hs].
Qed.

(** X22.  Only the expressions of the probe table ever reach [eval]: what
    is evaluated is a selection of the table's entries, in the table's order
    and each at most once, so never more than five calls and never a text
    taken from the document. *)
Theorem eval_only_table_expressions {I : Interpreter} (file : source) :
  exists chosen,
    evaluated (fst (extract_and_test_multiprocessing file)) = map snd chosen /\
    sublist chosen test_functions /\
    length (evaluated (fst (extract_and_test_multiprocessing file))) <= 5.
Proof.
  assert (Hlen : forall chosen, sublist chosen test_functions ->
                                length (map snd chosen) <= 5).
  { intros chosen Hs. rewrite length_map. apply sublist_length in Hs. exact Hs. }
  destruct file as [content|e].
  - unfold extract_and_test_multiprocessing.
    assert (Hb : forall i blocks env,
               evaluated (fst (fst (run_blocks i blocks env))) = []).
    { intros i blocks. revert i. induction blocks as [|block rest IH]; intros i env;
        [reflexivity|].
      cbn [run_blocks].
      assert (H1 : evaluated (fst (fst (run_block i block env))) = []).
      { unfold run_block. destruct (negb (truthy (strip block))); [reflexivity|].
        destruct (excluded (strip block)); [reflexivity|]. unfold execute.
        destruct (py_exec _ env) as [env' [[]|[] r|e|r|status|]]; try reflexivity;
    raised_cases r; reflexivity. }
      destruct (run_block i block env) as [[t env'] [a|]]; [exact H1|].
      specialize (IH (S i) env'). destruct (run_blocks (S i) rest env') as [[t' env''] a].
      cbn [fst] in *. rewrite evaluated_app, H1, IH. reflexivity. }
    specialize (Hb 1 (findall content) ∅).
    destruct (run_blocks 1 (findall content) ∅) as [[tb env] [a|]]; cbn [fst] in *.
    + exists []. cbn [app evaluated]. rewrite Hb.
      repeat split; [apply sublist_nil_l | cbn; lia].
    + destruct (run_probes_evaluated test_functions env) as (chosen & Hc & Hs).
      assert (Hev : forall tail,
                 evaluated tail = [] ->
                 evaluated
                   ([Print Testing_execution; Print (Found (length (findall content)))] ++
                    tb ++ Print Testing_functions ::
                    fst (fst (run_probes test_functions env)) ++ tail) =
                 map snd chosen).
      { intros tail Ht. cbn [app evaluated].
        rewrite evaluated_app, Hb. cbn [app evaluated].
        rewrite evaluated_app, Hc, Ht, app_nil_r. reflexivity. }
      exists chosen.
      destruct (run_probes test_functions env) as [[tp env'] [a|]]; cbn [fst] in *.
      * specialize (Hev [] eq_refl). rewrite app_nil_r in Hev.
        rewrite Hev. repeat split; [exact Hs | apply Hlen, Hs].
      * rewrite (Hev [Print Completed] eq_refl).
        repeat split; [exact Hs | apply Hlen, Hs].
  - exists []. repeat split; [apply sublist_nil_l | cbn; lia].
Qed.
